(** * bloblob: a Pushover client with single and fan-out delivery

    A shallow embedding of [index.js] (the library variant, with the
    symbol-keyed private methods) and the properties of its dispatch and
    settle-aggregation code.

    Conventions of the embedding.
    - A JavaScript string is a [string]; one character stands for one
      UTF-16 code unit (those below 256), so [String.length] is the
      source's [.length].
    - An argument documented as [{string}] that may be left out is an
      [option string]; [None] is [undefined].
    - A promise is a value of type [promise]; the event loop is a step
      function on a record holding the promises, the queue of reaction
      jobs and the shared [results] array.
    - [JSON.parse] and the environment variable [PO_SIMULATE] come from the
      runtime; they are section variables. *)

From Stdlib Require Import String Ascii NArith List Bool Lia DecimalString DecimalN.
From stdpp Require Import base list strings.

Set Warnings "-register-all".

Open Scope string_scope.
Open Scope list_scope.

(** ** Values *)

(** What [JSON.parse] can return.  A number is carried as the text that
    JavaScript's [ToString] gives for it, which is all the code observes. *)
Inductive json : Type :=
| JNull
| JBool (b : bool)
| JNum (text : string)
| JStr (s : string)
| JArr (items : list json)
| JObj (props : list (string * json)).

(** An [Error] object: its message and the [target] property that
    [targetError] adds. *)
Record error : Type := Error { message : string; target : option string }.

(** Exceptions that the runtime itself raises; their text is engine
    specific and not modelled. *)
Inductive native_error : Type := TypeError | SyntaxError.

(** The values that flow through the promises of this program. *)
Inductive value : Type :=
| VUndefined
| VJson (j : json)
| VErr (e : error)
| VNative (k : native_error).

(** A computation that returns or throws. *)
Inductive completion (A : Type) : Type :=
| Normal (a : A)
| Throw (e : value).
Arguments Normal {A} a.
Arguments Throw {A} e.

(** [x == null] *)
Definition is_nullish (v : value) : bool :=
  match v with
  | VUndefined | VJson JNull => true
  | _ => false
  end.

(** Truthiness of a string-or-undefined: [undefined] and [''] are falsy. *)
Definition truthy (s : option string) : bool :=
  match s with
  | Some (String _ _) => true
  | _ => false
  end.

(** ** Strings *)

(** [strs.join(sep)] on strings. *)
Fixpoint join (sep : string) (strs : list string) : string :=
  match strs with
  | [] => ""
  | [s] => s
  | s :: rest => s +:+ sep +:+ join sep rest
  end.

(** [ToString] on a parsed JSON value; an array prints as its elements
    joined with commas, [null] elements as the empty string. *)
Fixpoint ToString (j : json) : string :=
  match j with
  | JNull => "null"
  | JBool true => "true"
  | JBool false => "false"
  | JNum text => text
  | JStr s => s
  | JArr items =>
      join "," (map (fun x => match x with JNull => "" | _ => ToString x end) items)
  | JObj _ => "[object Object]"
  end.

(** [items.join(sep)]: [null] elements give the empty string. *)
Definition Array_join (sep : string) (items : list json) : string :=
  join sep (map (fun x => match x with JNull => "" | _ => ToString x end) items).

(** [`${n}`] for a non-negative integer. *)
Definition Number_toString (n : N) : string :=
  NilZero.string_of_uint (N.to_uint n).

(** Own property of an object, by key. *)
Fixpoint own_property (props : list (string * json)) (key : string) : option json :=
  match props with
  | [] => None
  | (k, v) :: rest => if String.eqb k key then Some v else own_property rest key
  end.

(** [json.key] for a key that no prototype defines ([request] and [errors]
    are such keys): reading a property of [null] throws, an object gives
    its own property, everything else gives [undefined]. *)
Definition get_property (j : json) (key : string) : completion value :=
  match j with
  | JNull => Throw (VNative TypeError)
  | JObj props =>
      match own_property props key with
      | Some v => Normal (VJson v)
      | None => Normal VUndefined
      end
  | _ => Normal VUndefined
  end.

(** ** URLSearchParams *)

(** The characters that the [application/x-www-form-urlencoded] serializer
    leaves as they are: ASCII letters and digits, [*], [-], [.] and [_]. *)
Definition is_urlencoded_safe (b : N) : bool :=
  ((48 <=? b) && (b <=? 57) || (65 <=? b) && (b <=? 90) ||
   (97 <=? b) && (b <=? 122) ||
   (b =? 42) || (b =? 45) || (b =? 46) || (b =? 95))%N.

Definition hex_digit (n : N) : ascii :=
  ascii_of_N (if (n <? 10)%N then 48 + n else 55 + n)%N.

(** One byte of the UTF-8 encoding, serialized. *)
Definition urlencode_byte (b : N) : string :=
  if (b =? 32)%N then "+"
  else if is_urlencoded_safe b then String (ascii_of_N b) ""
  else String "%" (String (hex_digit (b / 16)) (String (hex_digit (b mod 16)) "")).

(** UTF-8 encoding of one code unit below 256. *)
Definition utf8_bytes (c : ascii) : list N :=
  let n := N_of_ascii c in
  if (n <? 128)%N then [n] else [192 + n / 64; 128 + n mod 64]%N.

Fixpoint urlencode (s : string) : string :=
  match s with
  | EmptyString => ""
  | String c rest =>
      String.concat "" (map urlencode_byte (utf8_bytes c)) +:+ urlencode rest
  end.

(** [new URLSearchParams(entries).toString()] *)
Definition URLSearchParams_toString (entries : list (string * string)) : string :=
  join "&" (map (fun kv => urlencode (fst kv) +:+ "=" +:+ urlencode (snd kv)) entries).

(** ** The Dispatcher *)

Definition API_EP_MESSAGES : string := "https://api.pushover.net/1/messages.json".

(** [targetError(target, msg)] *)
Definition targetError (tgt : string) (msg : string) : error :=
  {| message := msg; target := Some tgt |}.

(** The object built by [new Bloblob(appToken)]: the field is set only when
    the argument is a string. *)
Record Bloblob : Type := { appToken : option string }.

Definition constructor (appToken : option string) : Bloblob :=
  {| appToken := appToken |}.

(** The [params] object of [generateUrl], as its entries in insertion
    order.  An [undefined] credential is written by [URLSearchParams] as the
    text [undefined].  The second guard reads [title.length] once [device]
    is a string, which throws when [title] is [undefined]. *)
Definition generateParams (this : Bloblob) (userToken message : string)
    (title device : option string) : completion (list (string * string)) :=
  let params :=
    [("token", default "undefined" (appToken this));
     ("user", userToken);
     ("message", message)] in
  let params :=
    match title with
    | Some t => if Nat.ltb 0 (String.length t) then params ++ [("title", t)] else params
    | None => params
    end in
  match device with
  | Some d =>
      match title with
      | Some t =>
          Normal (if Nat.ltb 0 (String.length t) then params ++ [("device", d)] else params)
      | None => Throw (VNative TypeError)
      end
  | None => Normal params
  end.

Definition generateUrl (this : Bloblob) (userToken message : string)
    (title device : option string) : completion string :=
  match generateParams this userToken message title device with
  | Normal params => Normal (API_EP_MESSAGES +:+ "?" +:+ URLSearchParams_toString params)
  | Throw e => Throw e
  end.

(** ** Promises *)

(** How a promise was settled, with the value handed to [resolve] or
    [reject]. *)
Inductive outcome : Type :=
| Resolve (v : value)
| Reject (v : value).

Inductive promise : Type :=
| Pending
| Settled (o : outcome).

(** The argument that a [then] handler receives. *)
Definition outcome_value (o : outcome) : value :=
  match o with
  | Resolve v => v
  | Reject v => v
  end.

(** [resolve] and [reject] act on a pending promise only. *)
Definition settle_promise (p : promise) (o : outcome) : promise :=
  match p with
  | Pending => Settled o
  | Settled _ => p
  end.

(** ** One submission *)

(** What the promise executor of [postToApi] did before it returned: a line
    on the console, a timer armed with [setTimeout], or the POST handed to
    [request.concat], the only network I/O of the program. *)
Inductive effect : Type :=
| ConsoleLog (line : string)
| SetTimeout
| HttpPost (url : string).

(** The three ways the executor of [postToApi] ends: the promise is settled
    on the spot, a timer is armed (simulation), or the request is sent and
    the callback is left to the transport. *)
Inductive launch : Type :=
| Done (o : outcome)
| Simulated (url : string)
| Posted (url : string).

Definition launch_effects (l : launch) : list effect :=
  match l with
  | Done _ => []
  | Simulated url => [ConsoleLog ("[.] Was going to POST to -> " +:+ url); SetTimeout]
  | Posted url => [HttpPost url]
  end.

Definition launch_promise (l : launch) : promise :=
  match l with
  | Done o => Settled o
  | _ => Pending
  end.

(** The arguments [(err, res, data)] of the callback of [request.concat];
    each may be [undefined].  [data] is the buffer, read as UTF-8. *)
Record response : Type := { statusCode : N }.

Record transport_result : Type :=
  { err : option error; res : option response; data : option string }.

(** What the callback of [request.concat] does to the promise: it calls
    [resolve], calls [reject], or dies of an exception that nothing catches,
    which leaves the promise as it was. *)
Inductive reaction : Type :=
| CallResolve (v : value)
| CallReject (v : value)
| Uncaught (e : value).

(** What settles a pending submission. *)
Inductive arrival : Type :=
| Response (r : transport_result)
| TimerFired.

Definition SIMULATED_ID : string := "01234567-8888-9999-0000-deadbeefcafe".

(** ** Sample runtime values for the closed examples

    The theorems below hold for every [JSON.parse]; the closed examples need
    one to run.  [JSON_parse_sample] is [JSON.parse] on the four response
    bodies that the examples use, and rejects every other text, the one
    non-JSON body of the examples among them. *)

Definition dquote : string := String (ascii_of_N 34) "".

(** The text of a JSON string literal without escapes. *)
Definition quoted (s : string) : string := dquote +:+ s +:+ dquote.

(** [{"request":"abc-123"}] *)
Definition body_accepted : string :=
  "{" +:+ quoted "request" +:+ ":" +:+ quoted "abc-123" +:+ "}".

(** [{"errors":["invalid token","user inactive"]}] *)
Definition body_refused : string :=
  "{" +:+ quoted "errors" +:+ ":[" +:+ quoted "invalid token" +:+ ","
      +:+ quoted "user inactive" +:+ "]}".

Definition JSON_parse_sample (text : string) : option json :=
  if String.eqb text body_accepted then Some (JObj [("request", JStr "abc-123")])
  else if String.eqb text body_refused
  then Some (JObj [("errors", JArr [JStr "invalid token"; JStr "user inactive"])])
  else if String.eqb text "{}" then Some (JObj [])
  else if String.eqb text "null" then Some JNull
  else None.

(** A response [(null, {statusCode}, data)]. *)
Definition responded (status : N) (body : string) : transport_result :=
  {| err := None; res := Some {| statusCode := status |}; data := Some body |}.

(** A body of [n] characters. *)
Fixpoint long_message (n : nat) : string :=
  match n with
  | O => ""
  | S n => String "a" (long_message n)
  end.

Section Runtime.

(** [process.env['PO_SIMULATE']] *)
Variable PO_SIMULATE : option string.

(** [JSON.parse]: [None] stands for the [SyntaxError] it throws. *)
Variable JSON_parse : string -> option json.

Definition NO_POST : option string := PO_SIMULATE.

(** The executor of the promise that [postToApi] returns.  An exception in
    an executor rejects the promise. *)
Definition postToApi (this : Bloblob) (tgt message : string)
    (title device : option string) : launch :=
  if Nat.ltb 1024 (String.length message)
  then Done (Reject (VErr (targetError tgt "Message is too long")))
  else
    match generateUrl this tgt message title device with
    | Throw e => Done (Reject e)
    | Normal url => if truthy NO_POST then Simulated url else Posted url
    end.

(** The callback given to [request.concat]. *)
Definition postToApi_callback (tgt : string) (r : transport_result) : reaction :=
  match data r with
  | None => Uncaught (VNative TypeError)
  | Some strData =>
      match err r with
      | Some e => CallReject (VErr e)
      | None =>
          match res r with
          | None => Uncaught (VNative TypeError)
          | Some rs =>
              if negb (statusCode rs =? 200)%N then
                match JSON_parse strData with
                | None => Uncaught (VNative SyntaxError)
                | Some json =>
                    match get_property json "errors" with
                    | Normal (VJson (JArr items)) =>
                        CallReject (VErr (targetError tgt
                          ("HTTP " +:+ Number_toString (statusCode rs) +:+ ": "
                             +:+ Array_join " " items)))
                    | _ => Uncaught (VNative TypeError)
                    end
                end
              else
                match JSON_parse strData with
                | Some json =>
                    match get_property json "request" with
                    | Normal v => CallResolve v
                    | Throw _ =>
                        CallReject (VErr (targetError tgt
                          ("Response from pushover.net is malformed? " +:+ strData)))
                    end
                | None =>
                    CallReject (VErr (targetError tgt
                      ("Response from pushover.net is malformed? " +:+ strData)))
                end
          end
      end
  end.

(** The settlement, if any, that an arrival brings to a submission. *)
Definition arrival_outcome (tgt : string) (l : launch) (a : arrival) : option outcome :=
  match l, a with
  | Posted _, Response r =>
      match postToApi_callback tgt r with
      | CallResolve v => Some (Resolve v)
      | CallReject v => Some (Reject v)
      | Uncaught _ => None
      end
  | Simulated _, TimerFired => Some (Resolve (VJson (JStr SIMULATED_ID)))
  | _, _ => None
  end.

(** The promise of a submission after one more arrival. *)
Definition submission_step (tgt : string) (l : launch) (p : promise) (a : arrival)
    : promise :=
  match arrival_outcome tgt l a with
  | Some o => settle_promise p o
  | None => p
  end.

(** The promise of a submission after the arrivals [arrivals]. *)
Definition submission_after (tgt : string) (l : launch) (arrivals : list arrival)
    : promise :=
  fold_left (submission_step tgt l) arrivals (launch_promise l).

(** [lob]: an exception in an [async] function rejects the promise it
    returns; otherwise that promise follows the one of [postToApi]. *)
Definition lob (this : Bloblob) (userToken message title device : option string)
    : launch :=
  if negb (truthy (appToken this))
  then Done (Reject (VErr (Error "No application token!" None)))
  else if negb (truthy userToken)
  then Done (Reject (VErr (Error "No user token provided!" None)))
  else if negb (truthy message)
  then Done (Reject (VErr (Error "No message!" None)))
  else postToApi this (default "" userToken) (default "" message) title device.


(** ** The settle-aggregator *)

(** The state that [allPromisesSettled] and its handlers share.
    - [promiseList]: the promises passed in.
    - [jobs]: the reaction jobs already queued, oldest first; the job
      [(i, ret)] is the call [fillAndCheck(i)(ret)].
    - [results]: the array [results]; [None] is a hole left by
      [new Array(n)].
    - [resolved]: whether the returned promise is fulfilled.  It is
      fulfilled with the array [results] itself, not a copy, so its value
      is read from [results].
    - [ok_calls]: how often [ok] has been called (a counter for the
      proofs, not a variable of the program). *)
Record aggregator : Type :=
  { promiseList : list promise;
    jobs : list (nat * value);
    results : list (option value);
    resolved : bool;
    ok_calls : nat }.

(** [a[i] = x]: past the end, the array grows and the gap is holes. *)
Definition array_set (i : nat) (x : value) (a : list (option value))
    : list (option value) :=
  if Nat.ltb i (length a) then <[i := Some x]> a
  else a ++ replicate (i - length a) None ++ [Some x].

(** [a[j]]: a hole reads as [undefined]. *)
Definition array_get (slot : option value) : value := default VUndefined slot.

(** The loop [for (j ...) if (results[j] == null) return;]: [true] when it
    runs to its end. *)
Fixpoint scan (slots : list (option value)) : bool :=
  match slots with
  | [] => true
  | slot :: rest => if is_nullish (array_get slot) then false else scan rest
  end.

(** [ok(results)]: resolving a promise that is resolved does nothing. *)
Definition ok (st : aggregator) : aggregator :=
  {| promiseList := promiseList st;
     jobs := jobs st;
     results := results st;
     resolved := true;
     ok_calls := S (ok_calls st) |}.

(** [fillAndCheck(i)(ret)] *)
Definition fillAndCheck (i : nat) (ret : value) (st : aggregator) : aggregator :=
  let st' :=
    {| promiseList := promiseList st;
       jobs := jobs st;
       results := array_set i ret (results st);
       resolved := resolved st;
       ok_calls := ok_calls st |} in
  if scan (results st') then ok st' else st'.

(** The jobs that [then] queues at once, for the promises that are settled
    when the handlers are attached; [i] is the index of the first one. *)
Fixpoint attach (i : nat) (promiseList : list promise) : list (nat * value) :=
  match promiseList with
  | [] => []
  | Pending :: rest => attach (S i) rest
  | Settled o :: rest => (i, outcome_value o) :: attach (S i) rest
  end.

(** [allPromisesSettled(promiseList)], up to the return of the new
    promise. *)
Definition allPromisesSettled (promiseList : list promise) : aggregator :=
  {| promiseList := promiseList;
     jobs := attach 0 promiseList;
     results := replicate (length promiseList) None;
     resolved := false;
     ok_calls := 0 |}.

(** What happens next: an input promise is settled by its owner, or the
    event loop runs the oldest reaction job. *)
Inductive event : Type :=
| Settle (i : nat) (o : outcome)
| RunJob.

(** Settling the promise at index [i]: a pending promise takes the outcome
    and its handler is queued; a settled one ignores the call. *)
Definition settle (i : nat) (o : outcome) (st : aggregator) : aggregator :=
  match promiseList st !! i with
  | Some Pending =>
      {| promiseList := <[i := Settled o]> (promiseList st);
         jobs := jobs st ++ [(i, outcome_value o)];
         results := results st;
         resolved := resolved st;
         ok_calls := ok_calls st |}
  | _ => st
  end.

Definition run_job (st : aggregator) : aggregator :=
  match jobs st with
  | [] => st
  | (i, ret) :: rest =>
      fillAndCheck i ret
        {| promiseList := promiseList st;
           jobs := rest;
           results := results st;
           resolved := resolved st;
           ok_calls := ok_calls st |}
  end.

Definition step (st : aggregator) (ev : event) : aggregator :=
  match ev with
  | Settle i o => settle i o st
  | RunJob => run_job st
  end.

Definition run (st : aggregator) (evs : list event) : aggregator :=
  fold_left step evs st.

(** Running the reaction jobs until the queue is empty. *)
Definition drain (st : aggregator) : aggregator :=
  Nat.iter (length (jobs st)) run_job st.

(** The value that the returned promise is fulfilled with, if it is. *)
Definition aggregate (st : aggregator) : option (list (option value)) :=
  if resolved st then Some (results st) else None.

(** ** Fan-out *)

(** [lobToAll]: the promises pushed to [pms], handed to
    [allPromisesSettled]. *)
Definition lobToAll (this : Bloblob) (userTokens : list string) (message : string)
    (title : option string) : aggregator :=
  allPromisesSettled
    (map (fun user => launch_promise (postToApi this user message title None))
         userTokens).

Definition lobToAll_effects (this : Bloblob) (userTokens : list string)
    (message : string) (title : option string) : list effect :=
  concat (map (fun user => launch_effects (postToApi this user message title None))
              userTokens).

(** What happens next during a [lobToAll]: something arrives for the
    submission of recipient [i], or the event loop runs a reaction job. *)
Inductive batch_event : Type :=
| Arrive (i : nat) (a : arrival)
| Microtask.

Definition batch_step (this : Bloblob) (userTokens : list string) (message : string)
    (title : option string) (st : aggregator) (ev : batch_event) : aggregator :=
  match ev with
  | Arrive i a =>
      match userTokens !! i with
      | Some user =>
          match arrival_outcome user (postToApi this user message title None) a with
          | Some o => settle i o st
          | None => st
          end
      | None => st
      end
  | Microtask => run_job st
  end.

Definition batch_run (this : Bloblob) (userTokens : list string) (message : string)
    (title : option string) (evs : list batch_event) : aggregator :=
  fold_left (batch_step this userTokens message title) evs
            (lobToAll this userTokens message title).

(** The arrivals addressed to recipient [k], in order. *)
Fixpoint arrivals_for (k : nat) (evs : list batch_event) : list arrival :=
  match evs with
  | [] => []
  | Arrive i a :: rest =>
      if Nat.eqb i k then a :: arrivals_for k rest else arrivals_for k rest
  | Microtask :: rest => arrivals_for k rest
  end.

(** ** Reading the generated URL *)

(** How often the character [c] occurs in [s]. *)
Fixpoint count_char (c : ascii) (s : string) : nat :=
  match s with
  | EmptyString => 0
  | String c' rest => (if Ascii.eqb c c' then 1 else 0) + count_char c rest
  end.

(** Whether every character of [s] passes [test]. *)
Fixpoint all_chars (test : ascii -> bool) (s : string) : bool :=
  match s with
  | EmptyString => true
  | String c rest => test c && all_chars test rest
  end.

(** The characters that the serializer leaves as they are. *)
Definition is_safe_char (c : ascii) : bool := is_urlencoded_safe (N_of_ascii c).

(** The characters that the serializer can write inside a name or a value:
    the safe ones, [+] for a space, and [%] before two hexadecimal digits. *)
Definition is_serialized_char (c : ascii) : bool :=
  is_safe_char c || Ascii.eqb c "+" || Ascii.eqb c "%".

(** ** Forgetting how a promise was settled *)

(** The fulfilment with the value of [o], whichever way [o] went. *)
Definition as_fulfilment (o : outcome) : outcome := Resolve (outcome_value o).

Definition promise_as_fulfilled (p : promise) : promise :=
  match p with
  | Pending => Pending
  | Settled o => Settled (as_fulfilment o)
  end.

Definition event_as_fulfilment (ev : event) : event :=
  match ev with
  | Settle i o => Settle i (as_fulfilment o)
  | RunJob => RunJob
  end.

(** ** The command-line entry of the library variant

    The block run when the file is the main module.  Its inputs are
    [process.stdin.isTTY], the environment variable [PO_APP_TOKEN], the
    arguments [process.argv.slice(2)] and the chunks that standard input
    delivers before it ends.  The greeting of the source holds the character
    U+1F680, two code units that the 8-bit characters of this embedding
    cannot write; it is the parameter [rocket]. *)

(** What the block ends with: [process.exit(code)] or the one call it makes
    on the [Bloblob] built from the application token. *)
Inductive cli_call : Type :=
| ProcessExit (code : N)
| CallLob (userToken message title device : string)
| CallLobToAll (userTokens : list string) (message : string).

Definition newline : string := String (ascii_of_N 10) "".

(** [`Hey from BlobLob! <rocket>:\n${msg || '<no message>'}`] *)
Definition payloadString (rocket msg : string) : string :=
  "Hey from BlobLob! " +:+ rocket +:+ ":" +:+ newline
    +:+ (if truthy (Some msg) then msg else "<no message>").

(** The lines written with [console.error] and the call made. *)
Definition main (rocket : string) (isTTY : bool) (PO_APP_TOKEN : option string)
    (USER_TOKENS : list string) (stdin : list string) : list string * cli_call :=
  let hasCustomMessage := negb isTTY in
  let hint :=
    if isTTY
    then ["[?] No custom message content: Pipe your message in via STDIN"]
    else [] in
  if negb (truthy PO_APP_TOKEN)
  then (hint ++ ["[!] No application token set as PO_APP_TOKEN in the env!"],
        ProcessExit 1)
  else if Nat.eqb (length USER_TOKENS) 0
  then (hint ++ ["[!] No user targets provided as script arguments!"], ProcessExit 1)
  else
    let msg := if hasCustomMessage then String.concat "" stdin else "" in
    match USER_TOKENS with
    | [userToken] => (hint, CallLob userToken (payloadString rocket msg) "Welcome" "iphone")
    | _ => (hint, CallLobToAll USER_TOKENS (payloadString rocket msg))
    end.

(** ** The demo variant

    The second [Bloblob] of the file: simulation is switched on by a
    constant, the URL builder has no device, and errors carry no [target].
    Its [allPromisesSettled] is the one above. *)

Definition DEMO_NO_POST : bool := true.

Definition DEMO_ID : string := "01234567-3218-41af-83d8-fedcba987654".

Definition generatePostURL (this : Bloblob) (userToken message : string)
    (title : option string) : string :=
  let params :=
    [("token", default "undefined" (appToken this));
     ("user", userToken);
     ("message", message)] in
  let params :=
    match title with
    | Some t => params ++ [("title", t)]
    | None => params
    end in
  API_EP_MESSAGES +:+ "?" +:+ URLSearchParams_toString params.

Definition demo_postToApi (this : Bloblob) (tgt message : string)
    (title : option string) : launch :=
  if Nat.ltb 1024 (String.length message)
  then Done (Reject (VErr (Error "Message is too long" None)))
  else
    let url := generatePostURL this tgt message title in
    if DEMO_NO_POST then Simulated url else Posted url.

(** The callback given to [request.concat] in the demo variant. *)
Definition demo_postToApi_callback (r : transport_result) : reaction :=
  match data r with
  | None => Uncaught (VNative TypeError)
  | Some strData =>
      match err r with
      | Some e => CallReject (VErr e)
      | None =>
          match res r with
          | None => Uncaught (VNative TypeError)
          | Some rs =>
              if negb (statusCode rs =? 200)%N then
                match JSON_parse strData with
                | None => Uncaught (VNative SyntaxError)
                | Some json =>
                    match get_property json "errors" with
                    | Normal (VJson (JArr items)) =>
                        CallReject (VErr (Error
                          ("HTTP " +:+ Number_toString (statusCode rs) +:+ ": "
                             +:+ Array_join " " items) None))
                    | _ => Uncaught (VNative TypeError)
                    end
                end
              else
                match JSON_parse strData with
                | Some json =>
                    match get_property json "request" with
                    | Normal v => CallResolve v
                    | Throw _ => CallReject (VErr (Error "Response malformed?" None))
                    end
                | None => CallReject (VErr (Error "Response malformed?" None))
                end
          end
      end
  end.

Definition demo_arrival_outcome (l : launch) (a : arrival) : option outcome :=
  match l, a with
  | Posted _, Response r =>
      match demo_postToApi_callback r with
      | CallResolve v => Some (Resolve v)
      | CallReject v => Some (Reject v)
      | Uncaught _ => None
      end
  | Simulated _, TimerFired => Some (Resolve (VJson (JStr DEMO_ID)))
  | _, _ => None
  end.

Definition demo_submission_after (l : launch) (arrivals : list arrival) : promise :=
  fold_left (fun p a =>
               match demo_arrival_outcome l a with
               | Some o => settle_promise p o
               | None => p
               end)
            arrivals (launch_promise l).

Definition demo_lob (this : Bloblob) (userToken message title : option string) : launch :=
  if negb (truthy (appToken this))
  then Done (Reject (VErr (Error "No application token!" None)))
  else if negb (truthy userToken)
  then Done (Reject (VErr (Error "No user token provided!" None)))
  else if negb (truthy message)
  then Done (Reject (VErr (Error "No message!" None)))
  else demo_postToApi this (default "" userToken) (default "" message) title.

Definition demo_lobToAll_effects (this : Bloblob) (userTokens : list string)
    (message : string) (title : option string) : list effect :=
  concat (map (fun user => launch_effects (demo_postToApi this user message title))
              userTokens).

(** ** Invariant of the aggregator

    What holds in every state that [allPromisesSettled] can reach: a queued
    job belongs to a settled promise whose slot is still a hole, a written
    slot holds the value of its promise, every settled promise has its job
    queued or its slot written, and the returned promise is resolved
    exactly when the scan succeeds on a list that is not empty. *)
Record agg_inv (st : aggregator) : Prop :=
  { inv_length : length (results st) = length (promiseList st);
    inv_nodup : NoDup (jobs st).*1;
    inv_job : forall i v, (i, v) ∈ jobs st ->
      results st !! i = Some None /\
      exists o, promiseList st !! i = Some (Settled o) /\ outcome_value o = v;
    inv_written : forall i v, results st !! i = Some (Some v) ->
      exists o, promiseList st !! i = Some (Settled o) /\ outcome_value o = v;
    inv_settled : forall i o, promiseList st !! i = Some (Settled o) ->
      (i, outcome_value o) ∈ jobs st \/ results st !! i = Some (Some (outcome_value o));
    inv_resolved : resolved st =
      match promiseList st with [] => false | _ => scan (results st) end;
    inv_calls : ok_calls st = if resolved st then 1 else 0 }.

(** The aggregator event that a [lobToAll] event amounts to. *)
Definition batch_event_as_event (this : Bloblob) (userTokens : list string)
    (message : string) (title : option string) (ev : batch_event) : option event :=
  match ev with
  | Arrive i a =>
      match userTokens !! i with
      | Some user =>
          match arrival_outcome user (postToApi this user message title None) a with
          | Some o => Some (Settle i o)
          | None => None
          end
      | None => None
      end
  | Microtask => Some RunJob
  end.

(** ** Lemmas on the aggregator *)

Lemma scan_true (slots : list (option value)) :
  scan slots = true <->
  forall j slot, slots !! j = Some slot ->
    exists v, slot = Some v /\ is_nullish v = false.
Proof.
  induction slots as [|s rest IH]; simpl.
  - split; [intros _ j slot H; by rewrite lookup_nil in H | done].
  - destruct (is_nullish (array_get s)) eqn:Hs.
    + split; [done|]. intros H. destruct (H 0 s eq_refl) as (v & -> & Hv).
      simpl in Hs. congruence.
    + rewrite IH. split.
      * intros H [|j] slot Hj; simpl in Hj.
        -- injection Hj as <-. destruct s as [v|]; [eauto | done].
        -- eauto.
      * intros H j slot Hj. apply (H (S j)). done.
Qed.

Lemma scan_hole (slots : list (option value)) i :
  slots !! i = Some None -> scan slots = false.
Proof.
  intros H. destruct (scan slots) eqn:E; [|done].
  destruct (proj1 (scan_true slots) E i None H) as (v & Hv & _). done.
Qed.

Lemma attach_elem i pl j v :
  (j, v) ∈ attach i pl <->
  i <= j /\ exists o, pl !! (j - i) = Some (Settled o) /\ outcome_value o = v.
Proof.
  revert i. induction pl as [|p rest IH]; intros i; simpl.
  - split; [intros H; by apply elem_of_nil in H | intros (_ & o & H & _); by rewrite lookup_nil in H].
  - assert (Hrest : (j, v) ∈ attach (S i) rest <->
      i < j /\ exists o, (p :: rest) !! (j - i) = Some (Settled o) /\ outcome_value o = v).
    { rewrite IH. split.
      - intros (Hle & o & Ho & Hv). split; [lia|]. exists o. split; [|done].
        replace (j - i) with (S (j - S i)) by lia. done.
      - intros (Hlt & o & Ho & Hv). split; [lia|]. exists o. split; [|done].
        replace (j - i) with (S (j - S i)) in Ho by lia. done. }
    destruct p as [|o].
    + rewrite Hrest. split.
      * intros (H & Ho); split; [lia | done].
      * intros (H & o & Ho & Hv). split; [|eauto].
        destruct (decide (j = i)) as [->|]; [|lia].
        rewrite Nat.sub_diag in Ho. done.
    + rewrite elem_of_cons, Hrest. split.
      * intros [H | (H & Ho)].
        -- injection H as -> ->. split; [lia|]. rewrite Nat.sub_diag. eauto.
        -- split; [lia | done].
      * intros (H & o' & Ho & Hv).
        destruct (decide (j = i)) as [->|].
        -- left. rewrite Nat.sub_diag in Ho. simpl in Ho. congruence.
        -- right. split; [lia | eauto].
Qed.

Lemma attach_nodup i pl : NoDup (attach i pl).*1.
Proof.
  revert i. induction pl as [|p rest IH]; intros i; simpl.
  - constructor.
  - destruct p as [|o]; [apply IH|].
    rewrite fmap_cons. constructor; [|apply IH].
    simpl. intros H. apply list_elem_of_fmap in H as ([j v] & Hj & H).
    simpl in Hj. subst j. apply attach_elem in H. lia.
Qed.

Lemma allPromisesSettled_inv pl : agg_inv (allPromisesSettled pl).
Proof.
  split; simpl.
  - apply length_replicate.
  - apply attach_nodup.
  - intros i v H. apply attach_elem in H as (_ & o & Ho & Hv).
    rewrite Nat.sub_0_r in Ho. split; [|eauto].
    apply lookup_replicate_2. by eapply lookup_lt_Some.
  - intros i v H. apply lookup_replicate in H as [H _]. done.
  - intros i o H. left. apply attach_elem. split; [lia|].
    rewrite Nat.sub_0_r. eauto.
  - destruct pl; [done|]. done.
  - done.
Qed.

Lemma settle_inv i o st : agg_inv st -> agg_inv (settle i o st).
Proof.
  intros Hinv. unfold settle.
  destruct (promiseList st !! i) as [[|o']|] eqn:Hi; [|done|done].
  assert (Hfresh : i ∉ (jobs st).*1).
  { intros H. apply list_elem_of_fmap in H as ([j v] & Hj & H). simpl in Hj. subst j.
    apply (inv_job _ Hinv) in H as (_ & o' & Ho' & _). congruence. }
  assert (Hhole : results st !! i = Some None).
  { destruct (results st !! i) as [[v|]|] eqn:Hr; [| done |].
    - apply (inv_written _ Hinv) in Hr as (o' & Ho' & _). congruence.
    - apply lookup_ge_None in Hr. apply lookup_lt_Some in Hi.
      rewrite (inv_length _ Hinv) in Hr. lia. }
  split; simpl.
  - rewrite length_insert. apply (inv_length _ Hinv).
  - rewrite fmap_app. simpl. apply NoDup_app. split; [apply (inv_nodup _ Hinv)|].
    split; [|apply NoDup_singleton].
    intros x Hx Hx'. apply list_elem_of_singleton in Hx'. by subst x.
  - intros j v Hj. apply elem_of_app in Hj as [Hj | Hj].
    + assert (j <> i).
      { intros ->. apply Hfresh. apply list_elem_of_fmap. by exists (i, v). }
      rewrite list_lookup_insert_ne by done. by apply (inv_job _ Hinv).
    + apply list_elem_of_singleton in Hj. injection Hj as -> ->.
      split; [done|]. exists o. split; [|done].
      apply list_lookup_insert_eq. by eapply lookup_lt_Some.
  - intros j v Hj. destruct (decide (j = i)) as [->|Hne]; [congruence|].
    rewrite list_lookup_insert_ne by done. by apply (inv_written _ Hinv).
  - intros j o' Hj. destruct (decide (j = i)) as [->|Hne].
    + rewrite list_lookup_insert_eq in Hj by (by eapply lookup_lt_Some).
      injection Hj as <-. left. apply elem_of_app. right. by apply list_elem_of_singleton.
    + rewrite list_lookup_insert_ne in Hj by done.
      destruct (inv_settled _ Hinv j o' Hj) as [H | H]; [|by right].
      left. apply elem_of_app. by left.
  - rewrite (inv_resolved _ Hinv).
    destruct (promiseList st) as [|p rest] eqn:Hpl; [by rewrite lookup_nil in Hi|].
    by destruct i.
  - apply (inv_calls _ Hinv).
Qed.

Lemma run_job_inv st : agg_inv st -> agg_inv (run_job st).
Proof.
  intros Hinv. unfold run_job.
  destruct (jobs st) as [|[i ret] rest] eqn:Hjobs; [done|].
  assert (Hhead : (i, ret) ∈ jobs st) by (rewrite Hjobs; left).
  destruct (inv_job _ Hinv i ret Hhead) as (Hhole & o & Ho & Hret).
  assert (Hlt : i < length (results st)) by (by eapply lookup_lt_Some).
  pose proof (inv_nodup _ Hinv) as Hnd. rewrite Hjobs, fmap_cons in Hnd.
  apply NoDup_cons in Hnd as [Hfresh Hnd]. simpl in Hfresh.
  assert (Hold : resolved st = false).
  { rewrite (inv_resolved _ Hinv). destruct (promiseList st); [done|].
    by eapply scan_hole. }
  assert (Hne : promiseList st <> []).
  { intros E. rewrite E, lookup_nil in Ho. done. }
  set (results' := array_set i ret (results st)).
  assert (Hres : results' = <[i := Some ret]> (results st)).
  { unfold results', array_set. apply Nat.ltb_lt in Hlt. by rewrite Hlt. }
  assert (Hrest : forall j v, (j, v) ∈ rest -> j <> i).
  { intros j v Hj ->. apply Hfresh. apply list_elem_of_fmap. by exists (i, v). }
  assert (agg_inv {| promiseList := promiseList st; jobs := rest; results := results';
                     resolved := scan results'; ok_calls := if scan results' then 1 else 0 |}).
  { split; simpl.
    - rewrite Hres, length_insert. apply (inv_length _ Hinv).
    - done.
    - intros j v Hj. rewrite Hres, list_lookup_insert_ne by (symmetry; by eapply Hrest).
      apply (inv_job _ Hinv). rewrite Hjobs. by right.
    - intros j v Hj. rewrite Hres in Hj. destruct (decide (j = i)) as [->|Hji].
      + rewrite list_lookup_insert_eq in Hj by done. injection Hj as <-. eauto.
      + rewrite list_lookup_insert_ne in Hj by done. by apply (inv_written _ Hinv).
    - intros j o' Hj. rewrite Hres. destruct (decide (j = i)) as [->|Hji].
      + right. rewrite list_lookup_insert_eq by done. congruence.
      + rewrite list_lookup_insert_ne by done.
        destruct (inv_settled _ Hinv j o' Hj) as [H | H]; [|by right].
        left. rewrite Hjobs in H. apply elem_of_cons in H as [H | H]; [congruence | done].
    - by destruct (promiseList st).
    - done. }
  unfold fillAndCheck. simpl. fold results'.
  rewrite (inv_calls _ Hinv), Hold.
  destruct (scan results') eqn:Hscan; unfold ok; simpl; done.
Qed.

Lemma step_inv st ev : agg_inv st -> agg_inv (step st ev).
Proof. destruct ev; simpl; [apply settle_inv | apply run_job_inv]. Qed.

Lemma run_inv st evs : agg_inv st -> agg_inv (run st evs).
Proof.
  revert st. induction evs as [|ev evs IH]; intros st H; simpl; [done|].
  apply IH. by apply step_inv.
Qed.

Lemma run_job_promiseList st : promiseList (run_job st) = promiseList st.
Proof.
  unfold run_job. destruct (jobs st) as [|[i ret] rest]; [done|].
  unfold fillAndCheck. simpl. by destruct (scan _).
Qed.

Lemma run_job_jobs st : jobs (run_job st) = tail (jobs st).
Proof.
  unfold run_job. destruct (jobs st) as [|[i ret] rest] eqn:E; [by rewrite E|].
  unfold fillAndCheck. simpl. by destruct (scan _).
Qed.

Lemma iter_run_job_jobs n st : jobs (Nat.iter n run_job st) = drop n (jobs st).
Proof.
  induction n as [|n IH]; simpl; [by rewrite drop_0|].
  rewrite run_job_jobs, IH. clear IH.
  revert n. induction (jobs st) as [|j l IHl]; intros [|n]; simpl; done.
Qed.

Lemma drain_jobs st : jobs (drain st) = [].
Proof. unfold drain. rewrite iter_run_job_jobs. by apply drop_all. Qed.

Lemma drain_promiseList st : promiseList (drain st) = promiseList st.
Proof.
  unfold drain. induction (length (jobs st)) as [|n IH]; simpl; [done|].
  by rewrite run_job_promiseList.
Qed.

Lemma drain_inv st : agg_inv st -> agg_inv (drain st).
Proof.
  intros H. unfold drain. induction (length (jobs st)) as [|n IH]; simpl; [done|].
  by apply run_job_inv.
Qed.

Lemma resolved_all_recorded st :
  agg_inv st -> resolved st = true ->
  jobs st = [] /\
  forall k p, promiseList st !! k = Some p ->
    exists o, p = Settled o /\ is_nullish (outcome_value o) = false /\
              results st !! k = Some (Some (outcome_value o)).
Proof.
  intros Hinv Hres. rewrite (inv_resolved _ Hinv) in Hres.
  destruct (promiseList st) as [|p0 rest] eqn:Hpl; [done|]. rewrite <- Hpl in *.
  pose proof (proj1 (scan_true _) Hres) as Hscan. split.
  - destruct (jobs st) as [|[i v] l] eqn:Hj; [done|].
    assert (H : (i, v) ∈ jobs st) by (rewrite Hj; left).
    apply (inv_job _ Hinv) in H as [H _]. apply scan_hole in H. congruence.
  - intros k p Hk.
    destruct (results st !! k) as [slot|] eqn:Hr.
    + destruct (Hscan k slot Hr) as (v & -> & Hv).
      destruct (inv_written _ Hinv k v Hr) as (o & Ho & <-).
      exists o. split; [congruence | done].
    + apply lookup_ge_None in Hr. apply lookup_lt_Some in Hk.
      rewrite (inv_length _ Hinv) in Hr. lia.
Qed.

Lemma quiescent_resolved st :
  agg_inv st -> promiseList st <> [] -> jobs st = [] ->
  (forall k p, promiseList st !! k = Some p ->
     exists o, p = Settled o /\ is_nullish (outcome_value o) = false) ->
  resolved st = true.
Proof.
  intros Hinv Hne Hjobs Hall. rewrite (inv_resolved _ Hinv).
  destruct (promiseList st) as [|p0 rest] eqn:Hpl; [done|]. rewrite <- Hpl in *.
  apply scan_true. intros j slot Hj.
  assert (Hlt : j < length (promiseList st)).
  { rewrite <- (inv_length _ Hinv). by eapply lookup_lt_Some. }
  apply lookup_lt_is_Some in Hlt as [p Hp].
  destruct (Hall j p Hp) as (o & -> & Hv).
  destruct (inv_settled _ Hinv j o Hp) as [H | H].
  - rewrite Hjobs in H. by apply elem_of_nil in H.
  - exists (outcome_value o). split; [congruence | done].
Qed.

Lemma resolved_final st ev : agg_inv st -> resolved st = true -> step st ev = st.
Proof.
  intros Hinv Hres. destruct (resolved_all_recorded st Hinv Hres) as [Hjobs Hall].
  destruct ev as [i o|]; simpl.
  - unfold settle. destruct (promiseList st !! i) as [[|o']|] eqn:Hi; [|done|done].
    destruct (Hall i Pending Hi) as (o' & Ho' & _). done.
  - unfold run_job. by rewrite Hjobs.
Qed.

Lemma settle_lookup i o st k :
  promiseList (settle i o st) !! k =
  if decide (k = i) then flip settle_promise o <$> promiseList st !! k
  else promiseList st !! k.
Proof.
  unfold settle. destruct (promiseList st !! i) as [[|o']|] eqn:Hi; simpl.
  - case_decide as Hk.
    + subst k. rewrite Hi. simpl. apply list_lookup_insert_eq. by eapply lookup_lt_Some.
    + by apply list_lookup_insert_ne.
  - case_decide as Hk; [subst k; by rewrite Hi | done].
  - case_decide as Hk; [subst k; by rewrite Hi | done].
Qed.

Lemma settled_stays st evs k o :
  promiseList st !! k = Some (Settled o) ->
  promiseList (run st evs) !! k = Some (Settled o).
Proof.
  revert st. induction evs as [|ev evs IH]; intros st H; simpl; [done|].
  apply IH. destruct ev as [i o'|]; simpl.
  - rewrite settle_lookup. case_decide; [by rewrite H | done].
  - by rewrite run_job_promiseList.
Qed.

(** ** Lemmas on the fan-out *)

Lemma batch_step_as_step this userTokens message title st ev :
  batch_step this userTokens message title st ev =
  match batch_event_as_event this userTokens message title ev with
  | Some e => step st e
  | None => st
  end.
Proof.
  destruct ev as [i a|]; simpl; [|done].
  destruct (userTokens !! i) as [user|]; [|done].
  by destruct (arrival_outcome _ _ _).
Qed.

Lemma batch_step_inv this userTokens message title st ev :
  agg_inv st -> agg_inv (batch_step this userTokens message title st ev).
Proof.
  intros H. rewrite batch_step_as_step.
  destruct (batch_event_as_event _ _ _ _ _); [by apply step_inv | done].
Qed.

Lemma batch_run_inv this userTokens message title evs :
  agg_inv (batch_run this userTokens message title evs).
Proof.
  unfold batch_run.
  assert (H : agg_inv (lobToAll this userTokens message title))
    by apply allPromisesSettled_inv.
  revert H. generalize (lobToAll this userTokens message title).
  induction evs as [|ev evs IH]; intros st H; simpl; [done|].
  apply IH. by apply batch_step_inv.
Qed.

Lemma batch_fold_lookup this userTokens message title st evs k user p :
  userTokens !! k = Some user ->
  promiseList st !! k = Some p ->
  promiseList (fold_left (batch_step this userTokens message title) evs st) !! k =
  Some (fold_left (submission_step user (postToApi this user message title None))
                  (arrivals_for k evs) p).
Proof.
  intros Hu. revert st p. induction evs as [|ev evs IH]; intros st p Hp; simpl; [done|].
  destruct ev as [i a|]; simpl.
  - destruct (Nat.eqb_spec i k) as [->|Hne]; simpl.
    + rewrite Hu. unfold submission_step at 2.
      destruct (arrival_outcome _ _ _) as [o|]; [|by apply IH].
      apply IH. rewrite settle_lookup, decide_True by done. by rewrite Hp.
    + apply IH. destruct (userTokens !! i) as [user'|]; [|done].
      destruct (arrival_outcome _ _ _) as [o|]; [|done].
      rewrite settle_lookup, decide_False by done. done.
  - apply IH. by rewrite run_job_promiseList.
Qed.

Lemma lobToAll_promiseList this userTokens message title :
  promiseList (lobToAll this userTokens message title) =
  map (fun user => launch_promise (postToApi this user message title None)) userTokens.
Proof. done. Qed.

Lemma batch_run_lookup this userTokens message title evs k user :
  userTokens !! k = Some user ->
  promiseList (batch_run this userTokens message title evs) !! k =
  Some (submission_after user (postToApi this user message title None)
                         (arrivals_for k evs)).
Proof.
  intros Hu. unfold batch_run, submission_after.
  apply batch_fold_lookup; [done|].
  rewrite lobToAll_promiseList.
  change (map ?f userTokens) with (f <$> userTokens).
  by rewrite list_lookup_fmap, Hu.
Qed.

Lemma batch_run_length this userTokens message title evs :
  length (promiseList (batch_run this userTokens message title evs)) = length userTokens.
Proof.
  unfold batch_run.
  assert (H : length (promiseList (lobToAll this userTokens message title))
              = length userTokens).
  { rewrite lobToAll_promiseList. apply length_map. }
  revert H. generalize (lobToAll this userTokens message title).
  induction evs as [|ev evs IH]; intros st H; simpl; [done|].
  apply IH. rewrite batch_step_as_step.
  destruct (batch_event_as_event _ _ _ _ _) as [[i o|]|]; simpl; [| |done].
  - unfold settle. destruct (promiseList st !! i) as [[|o']|]; simpl; [|done|done].
    by rewrite length_insert.
  - by rewrite run_job_promiseList.
Qed.

Lemma empty_aggregator_stuck evs :
  run (allPromisesSettled []) evs = allPromisesSettled [].
Proof. induction evs as [|[i o|] evs IH]; simpl; done. Qed.

Lemma empty_batch_stuck this message title evs :
  batch_run this [] message title evs = allPromisesSettled [].
Proof.
  unfold batch_run. change (lobToAll this [] message title) with (allPromisesSettled []).
  induction evs as [|[i a|] evs IH]; simpl; done.
Qed.

Lemma submission_fold_settled tgt l arrivals p o :
  fold_left (submission_step tgt l) arrivals p = Settled o ->
  p = Settled o \/ exists a, In a arrivals /\ arrival_outcome tgt l a = Some o.
Proof.
  revert p. induction arrivals as [|a arrivals IH]; intros p H; simpl in *; [by left|].
  destruct (IH _ H) as [Hp | (a' & Ha' & Ho)]; [|right; eauto].
  unfold submission_step in Hp.
  destruct (arrival_outcome tgt l a) as [o'|] eqn:Ha; [|by left].
  destruct p as [|o'']; simpl in Hp; [|by left].
  right. exists a. split; [by left | congruence].
Qed.

Lemma callback_resolve_inv tgt r v :
  postToApi_callback tgt r = CallResolve v ->
  exists strData json,
    err r = None /\ res r = Some {| statusCode := 200 |} /\ data r = Some strData /\
    JSON_parse strData = Some json /\ get_property json "request" = Normal v.
Proof.
  unfold postToApi_callback. intros H.
  destruct (data r) as [strData|]; [|done].
  destruct (err r) as [e|]; [done|].
  destruct (res r) as [[status]|]; [|done]. simpl in H.
  destruct (status =? 200)%N eqn:Hstatus; simpl in H.
  - apply N.eqb_eq in Hstatus. subst status.
    destruct (JSON_parse strData) as [json|] eqn:Hp; [|done].
    destruct (get_property json "request") as [v'|] eqn:Hg; [|done].
    injection H as <-. eauto 10.
  - destruct (JSON_parse strData) as [json|]; [|done].
    by destruct (get_property json "errors") as [[| [] | |]|].
Qed.

Lemma callback_reject_nonnull tgt r v :
  postToApi_callback tgt r = CallReject v -> is_nullish v = false.
Proof.
  unfold postToApi_callback. intros H.
  destruct (data r) as [strData|]; [|done].
  destruct (err r) as [e|]; [by injection H as <-|].
  destruct (res r) as [[status]|]; [|done]. simpl in H.
  destruct (negb (status =? 200)%N).
  - destruct (JSON_parse strData) as [json|]; [|done].
    destruct (get_property json "errors") as [[| [] | |]|]; try done.
    by injection H as <-.
  - destruct (JSON_parse strData) as [json|]; [|by injection H as <-].
    destruct (get_property json "request"); [done | by injection H as <-].
Qed.

Lemma postToApi_done_nonnull this tgt message title device o :
  postToApi this tgt message title device = Done o -> is_nullish (outcome_value o) = false.
Proof.
  unfold postToApi, generateUrl, generateParams. intros H.
  destruct (Nat.ltb 1024 (String.length message)); [by injection H as <-|].
  destruct device as [d|], title as [t|]; simpl in H;
    try (by destruct (truthy NO_POST)).
  by injection H as <-.
Qed.

Lemma step_length st ev : length (promiseList (step st ev)) = length (promiseList st).
Proof.
  destruct ev as [i o|]; simpl.
  - unfold settle. destruct (promiseList st !! i) as [[|o']|]; simpl; [|done|done].
    by rewrite length_insert.
  - by rewrite run_job_promiseList.
Qed.

Lemma run_length st evs : length (promiseList (run st evs)) = length (promiseList st).
Proof.
  revert st. induction evs as [|ev evs IH]; intros st; simpl; [done|].
  by rewrite IH, step_length.
Qed.

Lemma nonempty_length {A} (l : list A) : l <> [] <-> length l <> 0.
Proof. by destruct l. Qed.

Lemma nullish_blocks st k o :
  agg_inv st -> promiseList st !! k = Some (Settled o) ->
  is_nullish (outcome_value o) = true -> aggregate st = None.
Proof.
  intros Hinv Hk Hnull. unfold aggregate.
  destruct (resolved st) eqn:Hres; [|done].
  destruct (resolved_all_recorded st Hinv Hres) as [_ Hall].
  destruct (Hall k _ Hk) as (o0 & Ho0 & Hnn & _).
  injection Ho0 as <-. congruence.
Qed.

Lemma arrivals_for_app k evs evs' :
  arrivals_for k (evs ++ evs') = arrivals_for k evs ++ arrivals_for k evs'.
Proof.
  induction evs as [|[i a|] evs IH]; simpl; [done| |done].
  destruct (Nat.eqb i k); simpl; by rewrite IH.
Qed.

Lemma submission_settled_stays tgt l arrivals o :
  fold_left (submission_step tgt l) arrivals (Settled o) = Settled o.
Proof.
  induction arrivals as [|a arrivals IH]; simpl; [done|].
  unfold submission_step at 2. by destruct (arrival_outcome tgt l a).
Qed.

(** Once an input promise has settled with [null] or [undefined], the
    returned promise is pending then and later. *)
Lemma run_nullish_blocks promises evs evs' k o :
  promiseList (run (allPromisesSettled promises) evs) !! k = Some (Settled o) ->
  is_nullish (outcome_value o) = true ->
  aggregate (run (run (allPromisesSettled promises) evs) evs') = None /\
  aggregate (drain (run (run (allPromisesSettled promises) evs) evs')) = None.
Proof.
  intros Hk Hnull.
  pose proof (settled_stays _ evs' _ _ Hk) as Hk'.
  set (st := run (run (allPromisesSettled promises) evs) evs') in *.
  assert (Hinv : agg_inv st) by (repeat apply run_inv; apply allPromisesSettled_inv).
  split; [by eapply nullish_blocks|].
  eapply nullish_blocks; [by apply drain_inv | | done].
  by rewrite drain_promiseList.
Qed.

(** Once the submission of recipient [k] has settled with [null] or
    [undefined], the promise of [lobToAll] is pending then and later. *)
Lemma batch_nullish_blocks this userTokens message title evs evs' k user o :
  userTokens !! k = Some user ->
  submission_after user (postToApi this user message title None) (arrivals_for k evs)
    = Settled o ->
  is_nullish (outcome_value o) = true ->
  aggregate (batch_run this userTokens message title (evs ++ evs')) = None /\
  aggregate (drain (batch_run this userTokens message title (evs ++ evs'))) = None.
Proof.
  intros Hu Hsub Hnull.
  assert (Hk : promiseList (batch_run this userTokens message title (evs ++ evs')) !! k
               = Some (Settled o)).
  { rewrite (batch_run_lookup _ _ _ _ _ _ _ Hu), arrivals_for_app.
    unfold submission_after in *. by rewrite fold_left_app, Hsub, submission_settled_stays. }
  split.
  - eapply nullish_blocks; [apply batch_run_inv | done | done].
  - eapply nullish_blocks; [apply drain_inv, batch_run_inv | | done].
    by rewrite drain_promiseList.
Qed.

(** ** The settle-aggregator: properties *)

(** X22.  For a list of promises that is not empty, in every state
    that the aggregator reaches: [ok] has been called at most once; if the
    returned promise is resolved then [ok] was called exactly once, no input
    promise is still pending, and every slot holds the value of its promise; once
    resolved, no later event changes the state, and calling [ok] again or
    running a handler again with the value it recorded leaves the resolved
    value as it is; and when every input promise has settled with a value
    that is neither [null] nor [undefined], running the queued handlers
    resolves the returned promise, with one call of [ok]. *)
Theorem aggregate_resolves_once_after_all (promises : list promise) (evs : list event) :
  promises <> [] ->
  let st := run (allPromisesSettled promises) evs in
  ok_calls st <= 1 /\
  (resolved st = true ->
     ok_calls st = 1 /\
     (forall k p, promiseList st !! k = Some p ->
        exists o, p = Settled o /\ results st !! k = Some (Some (outcome_value o))) /\
     (forall ev, step st ev = st) /\
     aggregate (ok st) = aggregate st /\
     (forall i v, results st !! i = Some (Some v) ->
        aggregate (fillAndCheck i v st) = aggregate st)) /\
  ((forall k p, promiseList st !! k = Some p ->
      exists o, p = Settled o /\ is_nullish (outcome_value o) = false) ->
   resolved (drain st) = true /\ ok_calls (drain st) = 1).
Proof.
  intros Hne st.
  assert (Hinv : agg_inv st) by apply run_inv, allPromisesSettled_inv.
  split; [|split].
  - rewrite (inv_calls _ Hinv). destruct (resolved st); lia.
  - intros Hres. destruct (resolved_all_recorded st Hinv Hres) as [Hjobs Hall].
    split; [|split; [|split; [|split]]].
    + by rewrite (inv_calls _ Hinv), Hres.
    + intros k p Hk. destruct (Hall k p Hk) as (o & -> & _ & Hr). eauto.
    + intros ev. by apply resolved_final.
    + unfold aggregate. simpl. by rewrite Hres.
    + intros i v Hi.
      assert (Hset : array_set i v (results st) = results st).
      { unfold array_set.
        assert (Hlt : i < length (results st)) by (by eapply lookup_lt_Some).
        apply Nat.ltb_lt in Hlt. rewrite Hlt. by apply list_insert_id. }
      unfold fillAndCheck, aggregate. simpl. rewrite Hset.
      destruct (scan (results st)); simpl; by rewrite Hres.
  - intros Hall.
    assert (Hd : resolved (drain st) = true).
    { apply quiescent_resolved.
      - by apply drain_inv.
      - rewrite drain_promiseList. apply nonempty_length.
        unfold st. rewrite run_length. simpl. by apply nonempty_length.
      - apply drain_jobs.
      - by rewrite drain_promiseList. }
    split; [done|].
    by rewrite (inv_calls _ (drain_inv _ Hinv)), Hd.
Qed.

(** C2 (the code does not do this).  Given no promise at all,
    [allPromisesSettled] attaches no handler, so nothing ever calls [ok]:
    whatever happens afterwards, the state stays the initial one and the
    returned promise stays pending.  [lobToAll] with an empty list of user
    tokens is such a call. *)
Theorem empty_list_never_resolves (evs : list event) (this : Bloblob)
    (message : string) (title : option string) (bevs : list batch_event) :
  run (allPromisesSettled []) evs = allPromisesSettled [] /\
  aggregate (drain (run (allPromisesSettled []) evs)) = None /\
  aggregate (drain (batch_run this [] message title bevs)) = None.
Proof.
  rewrite empty_aggregator_stuck, empty_batch_stuck. done.
Qed.

(** C10, as amended.  If an input promise has settled with [null] or
    [undefined], the returned promise is pending and stays pending whatever
    happens next.  A submission of the Dispatcher settles with such a value
    only by the fulfilment that a 200 response brings whose body parses to
    JSON with a [request] property that is missing or [null]. *)
Theorem nullish_outcome_never_resolves
    (promises : list promise) (evs evs' : list event) (k : nat) (o : outcome)
    (this : Bloblob) (tgt message : string) (title device : option string)
    (arrivals : list arrival) (o' : outcome) :
  (promiseList (run (allPromisesSettled promises) evs) !! k = Some (Settled o) ->
   is_nullish (outcome_value o) = true ->
   aggregate (run (run (allPromisesSettled promises) evs) evs') = None /\
   aggregate (drain (run (run (allPromisesSettled promises) evs) evs')) = None) /\
  (submission_after tgt (postToApi this tgt message title device) arrivals = Settled o' ->
   is_nullish (outcome_value o') = true ->
   exists r strData json v,
     In (Response r) arrivals /\
     err r = None /\ res r = Some {| statusCode := 200 |} /\ data r = Some strData /\
     JSON_parse strData = Some json /\
     get_property json "request" = Normal v /\ o' = Resolve v).
Proof.
  split.
  - apply run_nullish_blocks.
  - intros Hsub Hnull.
    apply submission_fold_settled in Hsub as [Hinit | (a & Ha & Ho)].
    + destruct (postToApi this tgt message title device) as [o0| |] eqn:Hl; try done.
      simpl in Hinit. injection Hinit as ->.
      apply postToApi_done_nonnull in Hl. congruence.
    + unfold arrival_outcome in Ho.
      destruct (postToApi this tgt message title device) as [o0|url|url]; [done| |].
      * destruct a; [done|]. injection Ho as <-. done.
      * destruct a as [r|]; [|done].
        destruct (postToApi_callback tgt r) as [v|v|e] eqn:Hcb; [| |done].
        -- injection Ho as <-.
           apply callback_resolve_inv in Hcb as (strData & json & He & Hr & Hd & Hp & Hg).
           exists r, strData, json, v. done.
        -- injection Ho as <-. apply callback_reject_nonnull in Hcb.
           simpl in Hnull. congruence.
Qed.

(** ** Fan-out: properties *)

(** X23.  [lobToAll] on a list of [N > 0] user tokens, after any
    sequence of arrivals and reaction jobs that has settled every submission
    with a value that is neither [null] nor [undefined]: once the queued
    handlers have run, the returned promise is resolved with an array of [N]
    slots, and slot [k] holds the value with which the submission of the
    [k]-th user token settled (the rejection value if it failed, the
    fulfilment value if it succeeded).  That submission's promise is computed from the [k]-th
    user token and the arrivals addressed to [k] alone, so what happens to
    another recipient does not change it. *)
Theorem lobToAll_outcomes_index_aligned
    (this : Bloblob) (userTokens : list string) (message : string)
    (title : option string) (evs : list batch_event) :
  userTokens <> [] ->
  (forall k user, userTokens !! k = Some user ->
     exists o,
       submission_after user (postToApi this user message title None)
                        (arrivals_for k evs) = Settled o /\
       is_nullish (outcome_value o) = false) ->
  let st := drain (batch_run this userTokens message title evs) in
  exists outcomes,
    aggregate st = Some outcomes /\
    length outcomes = length userTokens /\
    forall k user o, userTokens !! k = Some user ->
      submission_after user (postToApi this user message title None)
                       (arrivals_for k evs) = Settled o ->
      outcomes !! k = Some (Some (outcome_value o)).
Proof.
  intros Hne Hall st.
  set (st0 := batch_run this userTokens message title evs) in *.
  assert (Hinv0 : agg_inv st0) by apply batch_run_inv.
  assert (Hinv : agg_inv st) by (by apply drain_inv).
  assert (Hpl : promiseList st = promiseList st0) by apply drain_promiseList.
  assert (Hlen : length (promiseList st) = length userTokens).
  { rewrite Hpl. apply batch_run_length. }
  assert (Hres : resolved st = true).
  { apply quiescent_resolved; [done | | apply drain_jobs |].
    - apply nonempty_length. rewrite Hlen. by apply nonempty_length.
    - intros k p Hk. rewrite Hpl in Hk.
      assert (Hlt : k < length userTokens).
      { rewrite <- batch_run_length with (this := this) (message := message)
          (title := title) (evs := evs). by eapply lookup_lt_Some. }
      apply lookup_lt_is_Some in Hlt as [user Hu].
      unfold st0 in Hk. rewrite (batch_run_lookup _ _ _ _ _ _ _ Hu) in Hk.
      injection Hk as <-. by apply Hall. }
  exists (results st). split; [|split].
  - unfold aggregate. by rewrite Hres.
  - by rewrite (inv_length _ Hinv).
  - intros k user o Hu Hsub.
    destruct (resolved_all_recorded st Hinv Hres) as [_ Hrec].
    assert (Hk : promiseList st !! k = Some (Settled o)).
    { rewrite Hpl. unfold st0. rewrite (batch_run_lookup _ _ _ _ _ _ _ Hu). by rewrite Hsub. }
    destruct (Hrec k _ Hk) as (o0 & Ho0 & _ & Hr). by injection Ho0 as <-.
Qed.

(** ** One submission: properties *)

(** C6, as amended.  A message of more than 1024 characters: [postToApi]
    rejects its promise on the spot with the error [Message is too long]
    whose [target] is the recipient, and does nothing else (no log line, no timer, no
    request); [lob] ends without any effect, and with that same error once
    its application token and user token are not empty; in [lobToAll] every
    submission is rejected in this way, nothing is sent, and for a list that
    is not empty the returned promise resolves with these errors in the
    order of the user tokens. *)
Theorem message_too_long_fails_before_io
    (this : Bloblob) (message : string) (title device : option string) :
  1024 < String.length message ->
  (forall tgt,
     postToApi this tgt message title device =
       Done (Reject (VErr (Error "Message is too long" (Some tgt)))) /\
     launch_effects (postToApi this tgt message title device) = []) /\
  (forall userToken,
     launch_effects (lob this userToken (Some message) title device) = [] /\
     exists e, lob this userToken (Some message) title device = Done (Reject e)) /\
  (forall user,
     truthy (appToken this) = true -> truthy (Some user) = true ->
     lob this (Some user) (Some message) title device =
       Done (Reject (VErr (Error "Message is too long" (Some user))))) /\
  (forall userTokens,
     lobToAll_effects this userTokens message title = [] /\
     promiseList (lobToAll this userTokens message title) =
       map (fun user => Settled (Reject (VErr (Error "Message is too long" (Some user)))))
           userTokens /\
     (userTokens <> [] ->
      aggregate (drain (lobToAll this userTokens message title)) =
        Some (map (fun user => Some (VErr (Error "Message is too long" (Some user))))
                  userTokens))).
Proof.
  intros Hlong.
  assert (Hpost : forall tgt dev, postToApi this tgt message title dev =
            Done (Reject (VErr (Error "Message is too long" (Some tgt))))).
  { intros tgt dev. unfold postToApi. apply Nat.ltb_lt in Hlong. by rewrite Hlong. }
  split; [|split; [|split]].
  - intros tgt. by rewrite Hpost.
  - intros userToken. unfold lob.
    destruct (truthy (appToken this)); simpl; [|eauto].
    destruct (truthy userToken); simpl; [|eauto].
    destruct message as [|c rest]; simpl; [simpl in Hlong; lia|].
    rewrite Hpost. eauto.
  - intros user Hthis Huser. unfold lob. rewrite Hthis, Huser. simpl.
    destruct message as [|c rest]; simpl; [simpl in Hlong; lia|].
    by rewrite Hpost.
  - intros userTokens.
    assert (Hpl : promiseList (lobToAll this userTokens message title) =
      map (fun user => Settled (Reject (VErr (Error "Message is too long" (Some user)))))
          userTokens).
    { rewrite lobToAll_promiseList. apply map_ext. intros user. by rewrite Hpost. }
    split; [|split; [done|]].
    + unfold lobToAll_effects. induction userTokens as [|user rest IH]; simpl; [done|].
      rewrite Hpost. simpl. apply IH.
      rewrite lobToAll_promiseList. apply map_ext. intros u. by rewrite Hpost.
    + intros Hne.
      set (st := drain (lobToAll this userTokens message title)).
      assert (Hinv : agg_inv st) by apply drain_inv, allPromisesSettled_inv.
      assert (Hst : promiseList st = promiseList (lobToAll this userTokens message title))
        by apply drain_promiseList.
      assert (Hres : resolved st = true).
      { apply quiescent_resolved; [done | | apply drain_jobs |].
        - rewrite Hst, Hpl. apply nonempty_length. rewrite length_map.
          by apply nonempty_length.
        - intros k p Hk. rewrite Hst, Hpl in Hk.
          change (map ?f userTokens) with (f <$> userTokens) in Hk.
          rewrite list_lookup_fmap in Hk.
          destruct (userTokens !! k) as [user|]; [|done].
          injection Hk as <-. eauto. }
      unfold aggregate. rewrite Hres. f_equal.
      destruct (resolved_all_recorded st Hinv Hres) as [_ Hrec].
      apply list_eq. intros k.
      change (map ?f userTokens) with (f <$> userTokens).
      rewrite list_lookup_fmap.
      destruct (userTokens !! k) as [user|] eqn:Hu; simpl.
      * assert (Hk : promiseList st !! k =
            Some (Settled (Reject (VErr (Error "Message is too long" (Some user)))))).
        { rewrite Hst, Hpl. change (map ?f userTokens) with (f <$> userTokens).
          by rewrite list_lookup_fmap, Hu. }
        destruct (Hrec k _ Hk) as (o0 & Ho0 & _ & Hr). by injection Ho0 as <-.
      * apply lookup_ge_None. rewrite (inv_length _ Hinv), Hst, Hpl, length_map.
        by apply lookup_ge_None.
Qed.

Lemma Array_join_strings sep (strs : list string) :
  Array_join sep (map JStr strs) = join sep strs.
Proof. unfold Array_join. by rewrite map_map, map_id. Qed.

Lemma submission_after_response tgt url r :
  submission_after tgt (Posted url) [Response r] =
  match postToApi_callback tgt r with
  | CallResolve v => Settled (Resolve v)
  | CallReject v => Settled (Reject v)
  | Uncaught _ => Pending
  end.
Proof.
  unfold submission_after, submission_step. simpl.
  by destruct (postToApi_callback tgt r).
Qed.

(** The entries that [generateUrl] serializes, whenever it returns:
    [token], [user] and [message] always, [title] when it is a string that is
    not empty, and [device] when it is a string and [title] is not empty. *)
Lemma generateParams_entries this userToken message title device params :
  generateParams this userToken message title device = Normal params ->
  params =
    [("token", default "undefined" (appToken this)); ("user", userToken);
     ("message", message)]
    ++ (if truthy title then [("title", default "" title)] else [])
    ++ match device with
       | Some d => if truthy title then [("device", d)] else []
       | None => []
       end.
Proof.
  unfold generateParams. intros H.
  destruct device as [d|], title as [[|c t]|]; simpl in *; congruence.
Qed.

(** [lob] sends the request when its three checks pass, the message is short
    enough, simulation is off and [generateUrl] returns. *)
Lemma lob_posts this user body title device url :
  truthy (appToken this) = true -> truthy (Some user) = true ->
  truthy (Some body) = true -> String.length body <= 1024 ->
  truthy NO_POST = false ->
  generateUrl this user body title device = Normal url ->
  lob this (Some user) (Some body) title device = Posted url.
Proof.
  intros Ht Hu Hb Hlen Hsim Hurl. unfold lob. rewrite Ht, Hu, Hb. simpl.
  unfold postToApi. apply Nat.ltb_ge in Hlen. by rewrite Hlen, Hurl, Hsim.
Qed.

(** C4 (the code does not do this).  The guard for [device] tests the length
    of [title]: with an empty title a device name is left out of the URL,
    with a title an empty device name is put in, and with no title at all a
    device name makes [generateUrl] throw. *)
Theorem generateUrl_device_follows_title :
  generateUrl (constructor (Some "T0KEN")) "u1" "hi" (Some "") (Some "iphone") =
    Normal "https://api.pushover.net/1/messages.json?token=T0KEN&user=u1&message=hi" /\
  generateUrl (constructor (Some "T0KEN")) "u1" "hi" (Some "Welcome") (Some "") =
    Normal ("https://api.pushover.net/1/messages.json"
              +:+ "?token=T0KEN&user=u1&message=hi&title=Welcome&device=") /\
  generateUrl (constructor (Some "T0KEN")) "u1" "hi" None (Some "iphone") =
    Throw (VNative TypeError).
Proof. repeat split; reflexivity. Qed.

(** C5 (the code does not do this).  When the transport reports an error
    and, as it does then, passes no data, the callback dies reading
    [data.toString] before it looks at [err]: the promise is neither rejected
    nor resolved.  When data is passed along with the error, the promise is
    rejected with the transport's error object as it is, without the
    [target] that [targetError] would add. *)
Theorem transport_error_not_tagged (tgt url : string) (e : error)
    (rs : option response) (body : string) :
  postToApi_callback tgt {| err := Some e; res := None; data := None |} =
    Uncaught (VNative TypeError) /\
  submission_after tgt (Posted url)
    [Response {| err := Some e; res := None; data := None |}] = Pending /\
  postToApi_callback tgt {| err := Some e; res := rs; data := Some body |} =
    CallReject (VErr e) /\
  submission_after tgt (Posted url)
    [Response {| err := Some e; res := rs; data := Some body |}] =
    Settled (Reject (VErr e)).
Proof. rewrite !submission_after_response. done. Qed.

Lemma join_concat sep strs : join sep strs = String.concat sep strs.
Proof.
  induction strs as [|s [|s' rest] IH]; [reflexivity | reflexivity |].
  change (s +:+ sep +:+ join sep (s' :: rest) =
          s +:+ sep +:+ String.concat sep (s' :: rest)).
  by rewrite IH.
Qed.

Lemma Number_toString_reads_back n :
  option_map N.of_uint (NilZero.uint_of_string (Number_toString n)) = Some n.
Proof.
  unfold Number_toString. rewrite NilZero.usu.
  - simpl. by rewrite DecimalN.Unsigned.of_to.
  - destruct n as [|p]; [discriminate|]. simpl.
    intros H. apply (f_equal Pos.of_uint) in H.
    rewrite DecimalPos.Unsigned.of_to in H. discriminate H.
Qed.

(** C7.  A response with a status other than 200 whose body parses to an
    object with an [errors] array of strings: the callback rejects the
    promise with an error whose [target] is the recipient and whose message
    is [HTTP ], the status in decimal digits, [: ] and the strings joined by
    single spaces.  The digits are those of the library's decimal printer
    and read back as the status; the joined text is the library's
    [String.concat].  For status 500 and the errors [invalid token] and
    [user inactive] the message is [HTTP 500: invalid token user inactive]. *)
Theorem non_200_reports_joined_errors (tgt : string) (status : N) (strData : string)
    (props : list (string * json)) (errors : list string) :
  status <> 200%N ->
  JSON_parse strData = Some (JObj props) ->
  own_property props "errors" = Some (JArr (map JStr errors)) ->
  exists (digits : string) (failure : error),
    postToApi_callback tgt (responded status strData) = CallReject (VErr failure) /\
    (forall url,
       submission_after tgt (Posted url) [Response (responded status strData)] =
         Settled (Reject (VErr failure))) /\
    target failure = Some tgt /\
    message failure = "HTTP " +:+ digits +:+ ": " +:+ String.concat " " errors /\
    digits = NilZero.string_of_uint (N.to_uint status) /\
    option_map N.of_uint (NilZero.uint_of_string digits) = Some status /\
    (status = 500%N -> errors = ["invalid token"; "user inactive"] ->
     failure = Error "HTTP 500: invalid token user inactive" (Some tgt)).
Proof.
  intros Hstatus Hparse Herrors.
  exists (Number_toString status),
         (Error ("HTTP " +:+ Number_toString status +:+ ": " +:+ join " " errors) (Some tgt)).
  assert (Hcb : postToApi_callback tgt (responded status strData) =
                CallReject (VErr (Error ("HTTP " +:+ Number_toString status +:+ ": "
                                           +:+ join " " errors) (Some tgt)))).
  { unfold postToApi_callback. simpl.
    apply N.eqb_neq in Hstatus. rewrite Hstatus. simpl.
    rewrite Hparse. simpl. rewrite Herrors. by rewrite Array_join_strings. }
  split; [done|]. split.
  { intros url. by rewrite submission_after_response, Hcb. }
  split; [reflexivity|]. split; [simpl; by rewrite join_concat|].
  split; [reflexivity|]. split; [apply Number_toString_reads_back|].
  intros -> ->. reflexivity.
Qed.

(** C8, as amended.  A 200 response whose body parses to a JSON value other
    than [null]: the callback resolves the promise with the value of the
    [request] property of that value ([undefined] if it has none), and so
    does a [lob] that sent the request.  A 200 response whose body does not
    parse, or parses to [null]: the promise is rejected with the error
    [Response from pushover.net is malformed? ] followed by the body, with
    the recipient as [target]. *)
Theorem ok_200_resolves_with_request_field (this : Bloblob) (user message : string)
    (title device : option string) (strData : string) :
  let r := responded 200 strData in
  let malformed :=
    VErr (Error ("Response from pushover.net is malformed? " +:+ strData) (Some user)) in
  (forall json,
     JSON_parse strData = Some json -> json <> JNull ->
     exists v,
       get_property json "request" = Normal v /\
       postToApi_callback user r = CallResolve v /\
       (forall url,
          lob this (Some user) (Some message) title device = Posted url ->
          submission_after user (lob this (Some user) (Some message) title device)
                           [Response r] = Settled (Resolve v))) /\
  (JSON_parse strData = None \/ JSON_parse strData = Some JNull ->
   postToApi_callback user r = CallReject malformed /\
   (forall url,
      lob this (Some user) (Some message) title device = Posted url ->
      submission_after user (lob this (Some user) (Some message) title device)
                       [Response r] = Settled (Reject malformed))).
Proof.
  intros r malformed. split.
  - intros json Hparse Hjson.
    assert (Hget : exists v, get_property json "request" = Normal v).
    { destruct json as [| | | | |props]; simpl; [done | eauto ..|].
      destruct (own_property props "request"); eauto. }
    destruct Hget as [v Hget]. exists v.
    assert (Hcb : postToApi_callback user r = CallResolve v).
    { unfold postToApi_callback. simpl. by rewrite Hparse, Hget. }
    split; [done|]. split; [done|].
    intros url ->. by rewrite submission_after_response, Hcb.
  - intros Hparse.
    assert (Hcb : postToApi_callback user r = CallReject malformed).
    { unfold postToApi_callback. simpl. by destruct Hparse as [-> | ->]. }
    split; [done|]. intros url ->. by rewrite submission_after_response, Hcb.
Qed.

(** C9.  [lob] checks, in this order, the application token, the user token
    and the message; the first one that is missing or empty rejects the
    returned promise with [No application token!], [No user token provided!]
    or [No message!], and nothing has been logged, timed or sent by then.
    When all three are there, [lob] is the call of [postToApi] on them. *)
Theorem lob_validates_before_io (this : Bloblob)
    (userToken message title device : option string) :
  let sent := lob this userToken message title device in
  (truthy (appToken this) = false ->
   sent = Done (Reject (VErr (Error "No application token!" None))) /\
   launch_effects sent = []) /\
  (truthy (appToken this) = true -> truthy userToken = false ->
   sent = Done (Reject (VErr (Error "No user token provided!" None))) /\
   launch_effects sent = []) /\
  (truthy (appToken this) = true -> truthy userToken = true ->
   truthy message = false ->
   sent = Done (Reject (VErr (Error "No message!" None))) /\
   launch_effects sent = []) /\
  (truthy (appToken this) = true -> truthy userToken = true ->
   truthy message = true ->
   exists user body,
     userToken = Some user /\ message = Some body /\
     sent = postToApi this user body title device).
Proof.
  intros sent. unfold sent, lob. split; [|split; [|split]].
  - intros Ht. by rewrite Ht.
  - intros Ht Hu. by rewrite Ht, Hu.
  - intros Ht Hu Hm. by rewrite Ht, Hu, Hm.
  - intros Ht Hu Hm. rewrite Ht, Hu, Hm. simpl.
    destruct userToken as [user|]; [|done]. destruct message as [body|]; [|done].
    by exists user, body.
Qed.

(** ** The generated URL: properties *)

Lemma count_char_app c s t : count_char c (s +:+ t) = count_char c s + count_char c t.
Proof. induction s as [|c' s IH]; simpl; [done|]. rewrite IH. lia. Qed.

Lemma all_chars_app test s t :
  all_chars test (s +:+ t) = all_chars test s && all_chars test t.
Proof. induction s as [|c' s IH]; simpl; [done|]. by rewrite IH, andb_assoc. Qed.

Lemma all_chars_count test c s :
  test c = false -> all_chars test s = true -> count_char c s = 0.
Proof.
  intros Hc. induction s as [|c' s IH]; simpl; [done|].
  intros [Hc' Hs]%andb_prop. rewrite (IH Hs).
  destruct (Ascii.eqb_spec c c') as [->|]; [congruence | done].
Qed.

Lemma urlencode_char_serialized c :
  all_chars is_serialized_char (String.concat "" (map urlencode_byte (utf8_bytes c))) = true.
Proof. destruct c as [[] [] [] [] [] [] [] []]; vm_compute; reflexivity. Qed.

Lemma urlencode_serialized s : all_chars is_serialized_char (urlencode s) = true.
Proof.
  induction s as [|c s IH]; simpl; [done|].
  by rewrite all_chars_app, urlencode_char_serialized, IH.
Qed.

Lemma urlencode_safe_char c :
  is_safe_char c = true ->
  String.concat "" (map urlencode_byte (utf8_bytes c)) = String c "".
Proof. destruct c as [[] [] [] [] [] [] [] []]; vm_compute; congruence. Qed.

Lemma urlencode_safe s : all_chars is_safe_char s = true -> urlencode s = s.
Proof.
  induction s as [|c s IH]; simpl; [done|].
  intros [Hc Hs]%andb_prop. by rewrite (urlencode_safe_char c Hc), (IH Hs).
Qed.

Lemma query_count c entries :
  is_serialized_char c = false ->
  count_char c (URLSearchParams_toString entries) =
  (if Ascii.eqb c "=" then length entries else 0) +
  (if Ascii.eqb c "&" then length entries - 1 else 0).
Proof.
  intros Hc. unfold URLSearchParams_toString.
  assert (Henc : forall s, count_char c (urlencode s) = 0).
  { intros s. apply (all_chars_count is_serialized_char); [done | apply urlencode_serialized]. }
  assert (Hseg : forall kv : string * string,
            count_char c (urlencode kv.1 +:+ "=" +:+ urlencode kv.2) =
            if Ascii.eqb c "=" then 1 else 0).
  { intros kv. rewrite !count_char_app, !Henc. simpl. lia. }
  induction entries as [|kv entries IH].
  - simpl. by destruct (Ascii.eqb c "="), (Ascii.eqb c "&").
  - destruct entries as [|kv' entries].
    + simpl. rewrite Hseg. destruct (Ascii.eqb c "="), (Ascii.eqb c "&"); lia.
    + set (segment := fun kv : string * string => urlencode kv.1 +:+ "=" +:+ urlencode kv.2)
        in *.
      change (join "&" (map segment (kv :: kv' :: entries)))
        with (segment kv +:+ "&" +:+ join "&" (map segment (kv' :: entries))).
      rewrite !count_char_app, IH. unfold segment at 1. rewrite Hseg.
      cbn [count_char length]. destruct (Ascii.eqb c "="), (Ascii.eqb c "&"); lia.
Qed.

(** X1.  Whatever characters with a code unit below 256 (all of ASCII, so
    every character that is reserved in a URL, and Latin-1) the credential,
    the user token, the message, the title and the device are written with,
    the URL that [generateUrl] returns has one
    [?], one [=] for each parameter it carries and one [&] between two of
    them, and neither a [#] nor a space: no argument can add a parameter to
    the query or cut it short.  The parameters are [token], [user] and
    [message], then [title] when it is not empty, then [device] when it is
    given and the title is not empty. *)
Theorem generateUrl_parameter_count (this : Bloblob) (userToken message : string)
    (title device : option string) (url : string) :
  generateUrl this userToken message title device = Normal url ->
  let n :=
    3 + (if truthy title then 1 else 0)
      + match device with
        | Some _ => if truthy title then 1 else 0
        | None => 0
        end in
  count_char "?" url = 1 /\ count_char "=" url = n /\ count_char "&" url = n - 1 /\
  count_char "#" url = 0 /\ count_char " " url = 0.
Proof.
  unfold generateUrl. intros H.
  destruct (generateParams this userToken message title device) as [params|e] eqn:Hp;
    [|done].
  injection H as <-. apply generateParams_entries in Hp.
  set (n := 3 + _ + _).
  assert (Hlen : length params = n).
  { rewrite Hp. unfold n. rewrite !length_app. simpl.
    destruct (truthy title), device; simpl; lia. }
  rewrite !count_char_app, !query_count by reflexivity. rewrite Hlen.
  cbn [count_char API_EP_MESSAGES Ascii.eqb Bool.eqb].
  repeat split; lia.
Qed.

Lemma append_assoc s t u : (s +:+ t) +:+ u = s +:+ t +:+ u.
Proof.
  induction s as [|c s IH]; [reflexivity|].
  change (String c ((s +:+ t) +:+ u) = String c (s +:+ t +:+ u)). by f_equal.
Qed.

Lemma append_empty_r s : s +:+ "" = s.
Proof.
  induction s as [|c s IH]; [reflexivity|].
  change (String c (s +:+ "") = String c s). by f_equal.
Qed.

(** X2.  A credential, a user token, a message and a title made of ASCII
    letters, digits, [*], [-], [.] and [_] are written into the URL unchanged,
    in the order [token], [user], [message], [title]; the title is left out
    when it is missing or empty. *)
Theorem generateUrl_keeps_safe_text (credential userToken message : string)
    (title : option string) :
  all_chars is_safe_char credential = true ->
  all_chars is_safe_char userToken = true ->
  all_chars is_safe_char message = true ->
  all_chars is_safe_char (default "" title) = true ->
  generateUrl (constructor (Some credential)) userToken message title None =
  Normal (API_EP_MESSAGES +:+ "?token=" +:+ credential +:+ "&user=" +:+ userToken
            +:+ "&message=" +:+ message
            +:+ (if truthy title then "&title=" +:+ default "" title else "")).
Proof.
  intros Hc Hu Hm Ht.
  unfold generateUrl, generateParams, URLSearchParams_toString.
  pose proof (urlencode_safe _ Ht) as Ht'.
  destruct title as [[|c t]|]; simpl in *.
  - rewrite (urlencode_safe _ Hc), (urlencode_safe _ Hu), (urlencode_safe _ Hm).
    rewrite !append_assoc, append_empty_r. reflexivity.
  - rewrite (urlencode_safe _ Hc), (urlencode_safe _ Hu), (urlencode_safe _ Hm), Ht'.
    rewrite !append_assoc. reflexivity.
  - rewrite (urlencode_safe _ Hc), (urlencode_safe _ Hu), (urlencode_safe _ Hm).
    rewrite !append_assoc, append_empty_r. reflexivity.
Qed.

(** ** Simulation and sending: properties *)

Lemma postToApi_simulated this tgt message title device url :
  truthy NO_POST = true -> postToApi this tgt message title device <> Posted url.
Proof.
  intros Hsim. unfold postToApi. destruct (Nat.ltb 1024 _); [done|].
  destruct (generateUrl _ _ _ _ _); [|done]. by rewrite Hsim.
Qed.

Lemma launch_effects_post l url : In (HttpPost url) (launch_effects l) -> l = Posted url.
Proof.
  destruct l as [o|u|u]; simpl; [done| |].
  - intros [H | [H | []]]; discriminate H.
  - intros [H | []]. by injection H as ->.
Qed.

(** What [lobToAll] gives once every submission has settled with a value
    that is neither [null] nor [undefined] and the handlers have run. *)
Lemma batch_drained this userTokens message title evs :
  userTokens <> [] ->
  (forall k user, userTokens !! k = Some user ->
     exists o,
       submission_after user (postToApi this user message title None)
                        (arrivals_for k evs) = Settled o /\
       is_nullish (outcome_value o) = false) ->
  let st := drain (batch_run this userTokens message title evs) in
  resolved st = true /\
  length (results st) = length userTokens /\
  forall k user o, userTokens !! k = Some user ->
    submission_after user (postToApi this user message title None)
                     (arrivals_for k evs) = Settled o ->
    results st !! k = Some (Some (outcome_value o)).
Proof.
  intros Hne Hall st.
  set (st0 := batch_run this userTokens message title evs) in *.
  assert (Hinv : agg_inv st) by apply drain_inv, batch_run_inv.
  assert (Hpl : promiseList st = promiseList st0) by apply drain_promiseList.
  assert (Hlen : length (promiseList st) = length userTokens).
  { rewrite Hpl. apply batch_run_length. }
  assert (Hres : resolved st = true).
  { apply quiescent_resolved; [done | | apply drain_jobs |].
    - apply nonempty_length. rewrite Hlen. by apply nonempty_length.
    - intros k p Hk. rewrite Hpl in Hk.
      assert (Hlt : k < length userTokens).
      { rewrite <- Hlen, Hpl. by eapply lookup_lt_Some. }
      apply lookup_lt_is_Some in Hlt as [user Hu].
      unfold st0 in Hk. rewrite (batch_run_lookup _ _ _ _ _ _ _ Hu) in Hk.
      injection Hk as <-. by apply Hall. }
  split; [done|]. split; [by rewrite (inv_length _ Hinv)|].
  intros k user o Hu Hsub.
  destruct (resolved_all_recorded st Hinv Hres) as [_ Hrec].
  assert (Hk : promiseList st !! k = Some (Settled o)).
  { rewrite Hpl. unfold st0. rewrite (batch_run_lookup _ _ _ _ _ _ _ Hu). by rewrite Hsub. }
  destruct (Hrec k _ Hk) as (o0 & Ho0 & _ & Hr). by injection Ho0 as <-.
Qed.

Lemma simulated_after_timer tgt url arrivals :
  In TimerFired arrivals ->
  submission_after tgt (Simulated url) arrivals =
    Settled (Resolve (VJson (JStr SIMULATED_ID))).
Proof.
  unfold submission_after. simpl.
  induction arrivals as [|[r|] arrivals IH]; intros Hin; [done| |].
  - destruct Hin as [H | Hin]; [discriminate H|]. by apply IH.
  - apply submission_settled_stays.
Qed.

(** X3.  With [PO_SIMULATE] set to a string that is not empty, no call of
    [postToApi], [lob] or [lobToAll] hands a request to the transport,
    whatever its arguments. *)
Theorem simulation_never_posts (this : Bloblob) (userTokens : list string)
    (tgt body : string) (userToken message title device : option string) (url : string) :
  truthy NO_POST = true ->
  ~ In (HttpPost url) (launch_effects (postToApi this tgt body title device)) /\
  ~ In (HttpPost url) (launch_effects (lob this userToken message title device)) /\
  ~ In (HttpPost url) (lobToAll_effects this userTokens body title).
Proof.
  intros Hsim. split; [|split].
  - intros H%launch_effects_post. by eapply postToApi_simulated.
  - intros H%launch_effects_post. unfold lob in H.
    destruct (negb (truthy (appToken this))); [done|].
    destruct (negb (truthy userToken)); [done|].
    destruct (negb (truthy message)); [done|].
    by eapply postToApi_simulated.
  - unfold lobToAll_effects. intros H. apply in_concat in H as (effects & Hin & H).
    apply in_map_iff in Hin as (user & <- & _).
    apply launch_effects_post in H. by eapply postToApi_simulated.
Qed.

(** X4.  With [PO_SIMULATE] set, a message of at most 1024 characters and a
    list of user tokens that is not empty: once the timer of every submission
    has fired and the handlers have run, the promise of [lobToAll] is
    resolved with one copy of the fixed identifier for each user token.
    Callbacks of the transport, which was never called, change nothing. *)
Theorem simulated_batch_resolves_with_ids (this : Bloblob) (userTokens : list string)
    (message : string) (title : option string) (evs : list batch_event) :
  truthy NO_POST = true ->
  String.length message <= 1024 ->
  userTokens <> [] ->
  (forall k, k < length userTokens -> In TimerFired (arrivals_for k evs)) ->
  aggregate (drain (batch_run this userTokens message title evs)) =
    Some (map (fun _ => Some (VJson (JStr SIMULATED_ID))) userTokens).
Proof.
  intros Hsim Hlen Hne Htimers.
  assert (Hpost : forall user, exists url,
            postToApi this user message title None = Simulated url).
  { intros user. unfold postToApi, generateUrl, generateParams.
    apply Nat.ltb_ge in Hlen. rewrite Hlen.
    destruct title as [t|]; simpl; rewrite Hsim; eauto. }
  assert (Hsub : forall k user, userTokens !! k = Some user ->
            submission_after user (postToApi this user message title None)
              (arrivals_for k evs) = Settled (Resolve (VJson (JStr SIMULATED_ID)))).
  { intros k user Hu. destruct (Hpost user) as [url ->].
    apply simulated_after_timer, Htimers. by eapply lookup_lt_Some. }
  destruct (batch_drained this userTokens message title evs Hne) as (Hres & Hl & Hslots).
  { intros k user Hu. rewrite (Hsub k user Hu). eauto. }
  unfold aggregate. rewrite Hres. f_equal. apply list_eq. intros k.
  change (map ?f userTokens) with (f <$> userTokens). rewrite list_lookup_fmap.
  destruct (userTokens !! k) as [user|] eqn:Hu; simpl.
  - by rewrite (Hslots k user _ Hu (Hsub k user Hu)).
  - apply lookup_ge_None. rewrite Hl. by apply lookup_ge_None.
Qed.

(** X5.  With [PO_SIMULATE] unset or empty and a message of at most 1024
    characters, [lobToAll] hands the transport one request for each user
    token, in the order of the list, each to the URL of that user token, and
    leaves every promise pending: all requests are sent before any answer is
    looked at. *)
Theorem lobToAll_posts_once_per_recipient (this : Bloblob) (userTokens : list string)
    (message : string) (title : option string) :
  truthy NO_POST = false ->
  String.length message <= 1024 ->
  lobToAll_effects this userTokens message title =
    map (fun user =>
           HttpPost (API_EP_MESSAGES +:+ "?" +:+
             URLSearchParams_toString
               ([("token", default "undefined" (appToken this)); ("user", user);
                 ("message", message)]
                ++ if truthy title then [("title", default "" title)] else [])))
        userTokens /\
  promiseList (lobToAll this userTokens message title) =
    map (fun _ => Pending) userTokens /\
  jobs (lobToAll this userTokens message title) = [].
Proof.
  intros Hsim Hlen.
  assert (Hpost : forall user,
            postToApi this user message title None =
            Posted (API_EP_MESSAGES +:+ "?" +:+
              URLSearchParams_toString
                ([("token", default "undefined" (appToken this)); ("user", user);
                  ("message", message)]
                 ++ if truthy title then [("title", default "" title)] else []))).
  { intros user. unfold postToApi, generateUrl, generateParams.
    apply Nat.ltb_ge in Hlen. rewrite Hlen.
    destruct title as [[|c t]|]; simpl; by rewrite Hsim. }
  assert (Hpl : promiseList (lobToAll this userTokens message title) =
                map (fun _ => Pending) userTokens).
  { rewrite lobToAll_promiseList. apply map_ext. intros user. by rewrite Hpost. }
  split; [|split; [done|]].
  - unfold lobToAll_effects. induction userTokens as [|user rest IH]; simpl; [done|].
    rewrite Hpost. simpl. f_equal. apply IH.
    rewrite lobToAll_promiseList. apply map_ext. intros u. by rewrite Hpost.
  - unfold lobToAll, allPromisesSettled. simpl.
    generalize 0. induction userTokens as [|user rest IH]; intros i; simpl; [done|].
    rewrite Hpost. simpl. apply IH.
    rewrite lobToAll_promiseList. apply map_ext. intros u. by rewrite Hpost.
Qed.

(** ** What a submission can end with: properties *)

Lemma postToApi_done_inv this tgt message title device o :
  postToApi this tgt message title device = Done o ->
  o = Reject (VErr (Error "Message is too long" (Some tgt))) /\
    1024 < String.length message \/
  o = Reject (VNative TypeError) /\ title = None /\ device <> None.
Proof.
  unfold postToApi, generateUrl, generateParams. intros H.
  destruct (Nat.ltb 1024 (String.length message)) eqn:Hlen.
  - left. apply Nat.ltb_lt in Hlen. by injection H as <-.
  - right. destruct device as [d|], title as [t|]; simpl in H;
      try (by destruct (truthy NO_POST)).
    by injection H as <-.
Qed.

Lemma callback_reject_inv tgt r v :
  postToApi_callback tgt r = CallReject v ->
  (exists e, err r = Some e /\ v = VErr e) \/
  (err r = None /\ exists msg, v = VErr (Error msg (Some tgt))).
Proof.
  unfold postToApi_callback. intros H.
  destruct (data r) as [strData|]; [|done].
  destruct (err r) as [e|]; [left; exists e; split; [done | congruence]|].
  right. split; [done|].
  destruct (res r) as [[status]|]; [|done]. simpl in H.
  destruct (negb (status =? 200)%N).
  - destruct (JSON_parse strData) as [json|]; [|done].
    destruct (get_property json "errors") as [[| [] | |]|]; try done.
    injection H as <-. eauto.
  - destruct (JSON_parse strData) as [json|]; [|injection H as <-; eauto].
    destruct (get_property json "request"); [done | injection H as <-; eauto].
Qed.

(** X6.  A rejection that a submission ends with is one of three things: an
    error whose [target] is the recipient; the error
    object that the transport reported, passed on as it is; or the
    [TypeError] of a call with a device and no title. *)
Theorem rejections_carry_the_recipient (this : Bloblob) (tgt message : string)
    (title device : option string) (arrivals : list arrival) (v : value) :
  submission_after tgt (postToApi this tgt message title device) arrivals
    = Settled (Reject v) ->
  (exists msg, v = VErr (Error msg (Some tgt))) \/
  (exists r e, In (Response r) arrivals /\ err r = Some e /\ v = VErr e) \/
  (v = VNative TypeError /\ title = None /\ device <> None).
Proof.
  intros Hsub.
  apply submission_fold_settled in Hsub as [Hinit | (a & Ha & Ho)].
  - destruct (postToApi this tgt message title device) as [o0| |] eqn:Hl; try done.
    simpl in Hinit. injection Hinit as ->.
    apply postToApi_done_inv in Hl as [[Ho _] | (Ho & Ht & Hd)]; injection Ho as ->; eauto.
  - unfold arrival_outcome in Ho.
    destruct (postToApi this tgt message title device) as [o0|url|url]; [done| |].
    + by destruct a.
    + destruct a as [r|]; [|done].
      destruct (postToApi_callback tgt r) as [v'|v'|e] eqn:Hcb; [done| |done].
      injection Ho as ->.
      apply callback_reject_inv in Hcb as [(e & He & ->) | (_ & msg & ->)]; eauto 10.
Qed.

(** X7.  A fulfilment that a submission ends with is the fixed identifier,
    in simulation, or the value of the [request] property of the JSON body
    of a response with status 200 and no transport error. *)
Theorem fulfilment_is_id_or_request (this : Bloblob) (tgt message : string)
    (title device : option string) (arrivals : list arrival) (v : value) :
  submission_after tgt (postToApi this tgt message title device) arrivals
    = Settled (Resolve v) ->
  (truthy NO_POST = true /\ In TimerFired arrivals /\ v = VJson (JStr SIMULATED_ID)) \/
  (truthy NO_POST = false /\
   exists r strData json,
     In (Response r) arrivals /\
     err r = None /\ res r = Some {| statusCode := 200 |} /\ data r = Some strData /\
     JSON_parse strData = Some json /\ get_property json "request" = Normal v).
Proof.
  intros Hsub.
  apply submission_fold_settled in Hsub as [Hinit | (a & Ha & Ho)].
  - destruct (postToApi this tgt message title device) as [o0| |] eqn:Hl; try done.
    simpl in Hinit. injection Hinit as ->.
    apply postToApi_done_inv in Hl as [[Ho _] | (Ho & _)]; discriminate Ho.
  - unfold arrival_outcome in Ho.
    destruct (postToApi this tgt message title device) as [o0|url|url] eqn:Hl; [done| |].
    + destruct a; [done|]. injection Ho as <-. left.
      split; [|done]. destruct (truthy NO_POST) eqn:Hsim; [done|].
      unfold postToApi in Hl. destruct (Nat.ltb 1024 _); [done|].
      destruct (generateUrl _ _ _ _ _); [|done]. by rewrite Hsim in Hl.
    + destruct a as [r|]; [|done]. right. split.
      { destruct (truthy NO_POST) eqn:Hsim; [|done].
        by apply (postToApi_simulated this tgt message title device url) in Hsim. }
      destruct (postToApi_callback tgt r) as [v'|v'|e] eqn:Hcb; [|done|done].
      injection Ho as ->.
      apply callback_resolve_inv in Hcb as (strData & json & He & Hr & Hd & Hp & Hg).
      exists r, strData, json. done.
Qed.

(** X8.  A response with a status other than 200 whose body is not JSON, or
    is JSON without an [errors] array: the callback dies of the exception
    that [JSON.parse] or the read of [errors.join] raises, and the promise of
    the submission is left pending. *)
Theorem non_200_without_errors_never_settles (tgt url : string) (status : N)
    (strData : string) :
  status <> 200%N ->
  (JSON_parse strData = None \/
   exists json, JSON_parse strData = Some json /\
     forall items, get_property json "errors" <> Normal (VJson (JArr items))) ->
  (exists e, postToApi_callback tgt (responded status strData) = Uncaught (VNative e)) /\
  submission_after tgt (Posted url) [Response (responded status strData)] = Pending.
Proof.
  intros Hstatus Hbody.
  assert (Hcb : exists e,
            postToApi_callback tgt (responded status strData) = Uncaught (VNative e)).
  { unfold postToApi_callback. simpl. apply N.eqb_neq in Hstatus. rewrite Hstatus. simpl.
    destruct Hbody as [-> | (json & -> & Hno)]; [eauto|].
    destruct (get_property json "errors") as [[| [| | | |items|] | |]|] eqn:Hg; eauto.
    by destruct (Hno items). }
  split; [done|]. destruct Hcb as [e Hcb].
  by rewrite submission_after_response, Hcb.
Qed.

(** X9.  While the submission of one recipient is pending, the promise of
    [lobToAll] is pending too, however many of the others have settled and
    whether or not the handlers have run: a recipient whose transport never
    answers, or whose callback died, holds back the whole batch. *)
Theorem pending_recipient_blocks_batch (this : Bloblob) (userTokens : list string)
    (message : string) (title : option string) (evs : list batch_event)
    (k : nat) (user : string) :
  userTokens !! k = Some user ->
  submission_after user (postToApi this user message title None) (arrivals_for k evs)
    = Pending ->
  aggregate (batch_run this userTokens message title evs) = None /\
  aggregate (drain (batch_run this userTokens message title evs)) = None.
Proof.
  intros Hu Hsub.
  assert (Hk : promiseList (batch_run this userTokens message title evs) !! k
               = Some Pending).
  { by rewrite (batch_run_lookup _ _ _ _ _ _ _ Hu), Hsub. }
  assert (Hblock : forall st, agg_inv st -> promiseList st !! k = Some Pending ->
            aggregate st = None).
  { intros st Hinv Hst. unfold aggregate. destruct (resolved st) eqn:Hres; [|done].
    destruct (resolved_all_recorded st Hinv Hres) as [_ Hall].
    by destruct (Hall k _ Hst) as (o & Ho & _). }
  split.
  - apply Hblock; [apply batch_run_inv | done].
  - apply Hblock; [apply drain_inv, batch_run_inv | by rewrite drain_promiseList].
Qed.

(** X10.  [lob] with a device and no title passes its three checks and then
    fails: the guard for the device reads [title.length], the [TypeError]
    rejects the promise, and nothing is logged, timed or sent. *)
Theorem lob_device_without_title (this : Bloblob) (user body device : string) :
  truthy (appToken this) = true ->
  truthy (Some user) = true ->
  truthy (Some body) = true ->
  String.length body <= 1024 ->
  lob this (Some user) (Some body) None (Some device) = Done (Reject (VNative TypeError)) /\
  launch_effects (lob this (Some user) (Some body) None (Some device)) = [].
Proof.
  intros Ht Hu Hb Hlen.
  assert (H : lob this (Some user) (Some body) None (Some device) =
              Done (Reject (VNative TypeError))).
  { unfold lob. rewrite Ht, Hu, Hb. simpl. unfold postToApi.
    apply Nat.ltb_ge in Hlen. by rewrite Hlen. }
  by rewrite H.
Qed.

(** ** The results array: properties *)

Lemma step_keeps_written st ev k v :
  agg_inv st -> results st !! k = Some (Some v) ->
  results (step st ev) !! k = Some (Some v).
Proof.
  intros Hinv Hk. destruct ev as [i o|]; simpl.
  - unfold settle. by destruct (promiseList st !! i) as [[|o']|].
  - unfold run_job. destruct (jobs st) as [|[i ret] rest] eqn:Hjobs; [done|].
    assert (Hhead : (i, ret) ∈ jobs st) by (rewrite Hjobs; left).
    destruct (inv_job _ Hinv i ret Hhead) as (Hhole & _).
    assert (Hne : i <> k) by congruence.
    assert (Hlt : i < length (results st)) by (by eapply lookup_lt_Some).
    assert (Hset : results (fillAndCheck i ret
              {| promiseList := promiseList st; jobs := rest; results := results st;
                 resolved := resolved st; ok_calls := ok_calls st |}) !! k
            = results st !! k).
    { unfold fillAndCheck, array_set. simpl. apply Nat.ltb_lt in Hlt. rewrite Hlt.
      destruct (scan _); simpl; by rewrite list_lookup_insert_ne. }
    by rewrite Hset.
Qed.

(** X11.  A slot of [results], once written, is never written again: it
    holds the value with which the promise of its index settled, whatever
    happens afterwards. *)
Theorem slot_written_once (promises : list promise) (evs evs' : list event)
    (k : nat) (v : value) :
  results (run (allPromisesSettled promises) evs) !! k = Some (Some v) ->
  results (run (run (allPromisesSettled promises) evs) evs') !! k = Some (Some v) /\
  exists o,
    promiseList (run (run (allPromisesSettled promises) evs) evs') !! k
      = Some (Settled o) /\
    outcome_value o = v.
Proof.
  intros Hk.
  assert (Hinv : agg_inv (run (allPromisesSettled promises) evs))
    by apply run_inv, allPromisesSettled_inv.
  assert (Hkeep : results (run (run (allPromisesSettled promises) evs) evs') !! k
                  = Some (Some v)).
  { revert Hinv Hk. generalize (run (allPromisesSettled promises) evs).
    induction evs' as [|ev evs' IH]; intros st Hinv Hk; simpl; [done|].
    apply IH; [by apply step_inv | by apply step_keeps_written]. }
  split; [done|].
  apply (inv_written (run (run (allPromisesSettled promises) evs) evs')); [|done].
  by apply run_inv.
Qed.

(** X12.  The array [results] keeps the length of the list of promises: no
    handler is queued for an index past its end, so no write makes it grow,
    and the array that the returned promise is resolved with has one slot
    for each input. *)
Theorem results_length_fixed (promises : list promise) (evs : list event) :
  let st := run (allPromisesSettled promises) evs in
  length (results st) = length promises /\
  (forall i ret, In (i, ret) (jobs st) -> i < length promises) /\
  (forall outcomes, aggregate st = Some outcomes -> length outcomes = length promises).
Proof.
  intros st.
  assert (Hinv : agg_inv st) by apply run_inv, allPromisesSettled_inv.
  assert (Hlen : length (results st) = length promises).
  { rewrite (inv_length _ Hinv). unfold st. by rewrite run_length. }
  split; [done|]. split.
  - intros i ret Hin. apply list_elem_of_In in Hin.
    destruct (inv_job _ Hinv i ret Hin) as (Hhole & _).
    rewrite <- Hlen. by eapply lookup_lt_Some.
  - unfold aggregate. intros outcomes H. destruct (resolved st); [|done].
    by injection H as <-.
Qed.

Lemma attach_as_fulfilled i promises :
  attach i (map promise_as_fulfilled promises) = attach i promises.
Proof.
  revert i. induction promises as [|[|o] rest IH]; intros i; simpl; [done|apply IH|].
  by rewrite IH.
Qed.

Lemma run_as_fulfilled a a' evs :
  results a' = results a /\ jobs a' = jobs a /\
  resolved a' = resolved a /\ ok_calls a' = ok_calls a /\
  promiseList a' = map promise_as_fulfilled (promiseList a) ->
  results (run a' (map event_as_fulfilment evs)) = results (run a evs) /\
  jobs (run a' (map event_as_fulfilment evs)) = jobs (run a evs) /\
  resolved (run a' (map event_as_fulfilment evs)) = resolved (run a evs) /\
  ok_calls (run a' (map event_as_fulfilment evs)) = ok_calls (run a evs) /\
  promiseList (run a' (map event_as_fulfilment evs)) =
    map promise_as_fulfilled (promiseList (run a evs)).
Proof.
  revert a a'. induction evs as [|ev evs IH]; intros a a' (Hr & Hj & Hres & Hc & Hp);
    simpl; [by repeat split|].
  apply IH. destruct ev as [i o|]; simpl.
  - unfold settle. rewrite Hp.
    change (map promise_as_fulfilled (promiseList a))
      with (promise_as_fulfilled <$> promiseList a).
    rewrite list_lookup_fmap.
    destruct (promiseList a !! i) as [[|o']|]; simpl; [|done|done].
    rewrite Hr, Hj, Hres, Hc. repeat split; try done.
    by rewrite list_fmap_insert.
  - unfold run_job. rewrite Hj.
    destruct (jobs a) as [|[i ret] rest] eqn:Hja; [repeat split; congruence|].
    unfold fillAndCheck. simpl. rewrite Hr.
    destruct (scan _); simpl; rewrite ?Hres, ?Hc; by repeat split.
Qed.

(** X13.  The aggregator does not record whether a promise was fulfilled or
    rejected: both handlers of [then] are the same function.  Replacing every
    rejection by the fulfilment with the same value changes neither the
    array [results], nor the queue of handlers, nor whether and with what the
    returned promise is resolved. *)
Theorem aggregator_ignores_resolve_vs_reject (promises : list promise)
    (evs : list event) :
  let st := run (allPromisesSettled promises) evs in
  let st' := run (allPromisesSettled (map promise_as_fulfilled promises))
                 (map event_as_fulfilment evs) in
  results st' = results st /\ jobs st' = jobs st /\
  resolved st' = resolved st /\ aggregate st' = aggregate st /\
  promiseList st' = map promise_as_fulfilled (promiseList st).
Proof.
  intros st st'.
  destruct (run_as_fulfilled (allPromisesSettled promises)
              (allPromisesSettled (map promise_as_fulfilled promises)) evs)
    as (Hr & Hj & Hres & Hc & Hp).
  { simpl. by rewrite length_map, attach_as_fulfilled. }
  repeat split; try done. unfold aggregate, st, st'. by rewrite Hres, Hr.
Qed.

Lemma drained_aggregate st :
  agg_inv st -> promiseList st <> [] ->
  (forall k p, promiseList st !! k = Some p ->
     exists o, p = Settled o /\ is_nullish (outcome_value o) = false) ->
  aggregate (drain st) =
    Some (map (fun p => match p with
                        | Settled o => Some (outcome_value o)
                        | Pending => None
                        end) (promiseList st)).
Proof.
  intros Hinv Hne Hall.
  assert (Hinv' : agg_inv (drain st)) by (by apply drain_inv).
  assert (Hres : resolved (drain st) = true).
  { apply quiescent_resolved; [done | by rewrite drain_promiseList | apply drain_jobs |].
    by rewrite drain_promiseList. }
  unfold aggregate. rewrite Hres. f_equal.
  destruct (resolved_all_recorded _ Hinv' Hres) as [_ Hrec].
  rewrite drain_promiseList in Hrec.
  apply list_eq. intros k.
  change (map ?f (promiseList st)) with (f <$> promiseList st).
  rewrite list_lookup_fmap.
  destruct (promiseList st !! k) as [p|] eqn:Hk; simpl.
  - destruct (Hrec k p Hk) as (o & -> & _ & Hr). done.
  - apply lookup_ge_None. rewrite (inv_length _ Hinv'), drain_promiseList.
    by apply lookup_ge_None.
Qed.

(** X14.  The resolved array depends on how each promise settled and not on
    when: two runs from the same list of promises, with the events in any
    two orders, that leave every promise settled in the same way with a
    value that is neither [null] nor [undefined], resolve the returned
    promise with the same array, the values in the order of the list. *)
Theorem aggregate_independent_of_arrival_order (promises : list promise)
    (evs1 evs2 : list event) :
  promises <> [] ->
  promiseList (run (allPromisesSettled promises) evs1) =
    promiseList (run (allPromisesSettled promises) evs2) ->
  (forall k p, promiseList (run (allPromisesSettled promises) evs1) !! k = Some p ->
     exists o, p = Settled o /\ is_nullish (outcome_value o) = false) ->
  aggregate (drain (run (allPromisesSettled promises) evs1)) =
    aggregate (drain (run (allPromisesSettled promises) evs2)) /\
  aggregate (drain (run (allPromisesSettled promises) evs1)) =
    Some (map (fun p => match p with
                        | Settled o => Some (outcome_value o)
                        | Pending => None
                        end)
              (promiseList (run (allPromisesSettled promises) evs1))).
Proof.
  intros Hne Heq Hall.
  assert (Hne' : forall evs, promiseList (run (allPromisesSettled promises) evs) <> []).
  { intros evs. apply nonempty_length. rewrite run_length. simpl. by apply nonempty_length. }
  rewrite !drained_aggregate;
    try apply run_inv, allPromisesSettled_inv; try apply Hne'; try done.
  - by rewrite Heq.
  - by rewrite <- Heq.
Qed.

(** ** The demo variant: properties *)

Lemma demo_after_timer url arrivals :
  In TimerFired arrivals ->
  demo_submission_after (Simulated url) arrivals = Settled (Resolve (VJson (JStr DEMO_ID))).
Proof.
  unfold demo_submission_after. simpl.
  induction arrivals as [|[r|] arrivals IH]; intros Hin; [done| |].
  - destruct Hin as [H | Hin]; [discriminate H|]. by apply IH.
  - simpl. clear. induction arrivals as [|[r|] arrivals IH]; simpl; done.
Qed.

Lemma demo_without_timer url arrivals :
  ~ In TimerFired arrivals -> demo_submission_after (Simulated url) arrivals = Pending.
Proof.
  unfold demo_submission_after. simpl.
  induction arrivals as [|[r|] arrivals IH]; intros Hin; [done| |].
  - apply IH. intros H. apply Hin. by right.
  - destruct Hin. by left.
Qed.

Lemma generatePostURL_same this userToken message title :
  title <> Some "" ->
  generateUrl this userToken message title None =
    Normal (generatePostURL this userToken message title).
Proof.
  unfold generateUrl, generateParams, generatePostURL.
  intros Hne. destruct title as [[|c t]|]; [done| |]; reflexivity.
Qed.

(** X15.  The URL of the demo variant is the URL of the library variant
    without a device, except for the empty title: the demo variant writes it
    as a last parameter [title=], the library variant leaves it out. *)
Theorem generatePostURL_agrees_with_generateUrl (this : Bloblob)
    (userToken message : string) (title : option string) :
  (title <> Some "" ->
   generateUrl this userToken message title None =
     Normal (generatePostURL this userToken message title)) /\
  (title = Some "" ->
   exists url,
     generateUrl this userToken message title None = Normal url /\
     generatePostURL this userToken message title = url +:+ "&title=").
Proof.
  split; [apply generatePostURL_same|].
  unfold generateUrl, generateParams, generatePostURL.
  intros ->. eexists. split; [reflexivity|].
    unfold URLSearchParams_toString. simpl.
    rewrite !append_assoc. reflexivity.
Qed.

Lemma demo_postToApi_never_posts this tgt message title url :
  demo_postToApi this tgt message title <> Posted url.
Proof. unfold demo_postToApi. by destruct (Nat.ltb 1024 _). Qed.

(** X16.  In the demo variant a [lob] that passes its checks with a message
    of at most 1024 characters logs the URL, arms the timer and sends
    nothing; its promise is pending until the timer fires and is then
    fulfilled with the fixed identifier, whatever else arrives.  No call of
    [postToApi], [lob] or [lobToAll] of the demo variant, whatever its
    arguments, hands a request to the transport. *)
Theorem demo_lob_resolves_with_fixed_id (this : Bloblob) (user body : string)
    (title : option string) (arrivals : list arrival) :
  (truthy (appToken this) = true ->
   truthy (Some user) = true ->
   truthy (Some body) = true ->
   String.length body <= 1024 ->
   let sent := demo_lob this (Some user) (Some body) title in
   sent = Simulated (generatePostURL this user body title) /\
   launch_effects sent =
     [ConsoleLog ("[.] Was going to POST to -> " +:+ generatePostURL this user body title);
      SetTimeout] /\
   (In TimerFired arrivals ->
    demo_submission_after sent arrivals = Settled (Resolve (VJson (JStr DEMO_ID)))) /\
   (~ In TimerFired arrivals -> demo_submission_after sent arrivals = Pending)) /\
  (forall (that : Bloblob) (tgt text : string) (userToken message heading : option string)
          (userTokens : list string) (url : string),
     ~ In (HttpPost url) (launch_effects (demo_postToApi that tgt text heading)) /\
     ~ In (HttpPost url) (launch_effects (demo_lob that userToken message heading)) /\
     ~ In (HttpPost url) (demo_lobToAll_effects that userTokens text heading)).
Proof.
  split.
  - intros Ht Hu Hb Hlen sent.
    assert (Hsent : sent = Simulated (generatePostURL this user body title)).
    { unfold sent, demo_lob. rewrite Ht, Hu, Hb. simpl. unfold demo_postToApi.
      apply Nat.ltb_ge in Hlen. by rewrite Hlen. }
    split; [done|]. rewrite Hsent. split; [reflexivity|].
    split; [apply demo_after_timer | apply demo_without_timer].
  - intros that tgt text userToken message heading userTokens url. split; [|split].
    + intros H%launch_effects_post. by eapply demo_postToApi_never_posts.
    + intros H%launch_effects_post. unfold demo_lob in H.
      destruct (negb (truthy (appToken that))); [done|].
      destruct (negb (truthy userToken)); [done|].
      destruct (negb (truthy message)); [done|].
      by eapply demo_postToApi_never_posts.
    + unfold demo_lobToAll_effects. intros H. apply in_concat in H as (effects & Hin & H).
      apply in_map_iff in Hin as (user' & <- & _).
      apply launch_effects_post in H. by eapply demo_postToApi_never_posts.
Qed.

(** X17.  With [PO_SIMULATE] set and a title that is not the empty string,
    the library variant without a device and the demo variant start a
    submission with the same console line, the one for the URL of
    [generatePostURL], and neither sends a request; what their timers later
    fulfil the promise with differs, the identifier of the library in one
    and the identifier of the demo variant in the other.  A message of more
    than 1024 characters is rejected by both with the message
    [Message is too long], with the recipient as [target] in the library
    variant and without a [target] in the demo variant. *)
Theorem demo_matches_simulated_library (this : Bloblob) (tgt message : string)
    (title : option string) :
  truthy NO_POST = true ->
  title <> Some "" ->
  (String.length message <= 1024 ->
   let line :=
     ConsoleLog ("[.] Was going to POST to -> " +:+ generatePostURL this tgt message title) in
   In line (launch_effects (postToApi this tgt message title None)) /\
   In line (launch_effects (demo_postToApi this tgt message title)) /\
   (forall url,
      ~ In (HttpPost url) (launch_effects (postToApi this tgt message title None)) /\
      ~ In (HttpPost url) (launch_effects (demo_postToApi this tgt message title))) /\
   submission_after tgt (postToApi this tgt message title None) [TimerFired] =
     Settled (Resolve (VJson (JStr "01234567-8888-9999-0000-deadbeefcafe"))) /\
   demo_submission_after (demo_postToApi this tgt message title) [TimerFired] =
     Settled (Resolve (VJson (JStr "01234567-3218-41af-83d8-fedcba987654")))) /\
  (1024 < String.length message ->
   postToApi this tgt message title None =
     Done (Reject (VErr (Error "Message is too long" (Some tgt)))) /\
   demo_postToApi this tgt message title =
     Done (Reject (VErr (Error "Message is too long" None)))).
Proof.
  intros Hsim Hne. split.
  - intros Hlen line. apply Nat.ltb_ge in Hlen.
    assert (Hlib : postToApi this tgt message title None =
                   Simulated (generatePostURL this tgt message title)).
    { unfold postToApi. by rewrite Hlen, (generatePostURL_same this tgt message title Hne),
        Hsim. }
    assert (Hdemo : demo_postToApi this tgt message title =
                    Simulated (generatePostURL this tgt message title)).
    { unfold demo_postToApi. by rewrite Hlen. }
    rewrite Hlib, Hdemo. split; [by left|]. split; [by left|]. split; [|done].
    intros url. split; simpl; intros [H | [H | []]]; discriminate H.
  - intros Hlen. apply Nat.ltb_lt in Hlen.
    unfold postToApi, demo_postToApi. by rewrite Hlen.
Qed.

(** ** The command-line entry: properties *)

Lemma length_append s t : String.length (s +:+ t) = String.length s + String.length t.
Proof.
  induction s as [|c s IH]; [reflexivity|].
  change (S (String.length (s +:+ t)) = S (String.length s + String.length t)).
  by rewrite IH.
Qed.

Lemma payloadString_length rocket msg :
  String.length (payloadString rocket msg) =
  20 + String.length rocket + (if truthy (Some msg) then String.length msg else 12).
Proof.
  unfold payloadString. rewrite !length_append.
  destruct (truthy (Some msg)); simpl; lia.
Qed.

Lemma payloadString_truthy rocket msg : truthy (Some (payloadString rocket msg)) = true.
Proof. reflexivity. Qed.

Lemma main_calls rocket isTTY PO_APP_TOKEN USER_TOKENS stdin hint call :
  main rocket isTTY PO_APP_TOKEN USER_TOKENS stdin = (hint, call) ->
  call = ProcessExit 1 \/
  truthy PO_APP_TOKEN = true /\
  exists message,
    message = payloadString rocket (if isTTY then "" else String.concat "" stdin) /\
    ((exists userToken, USER_TOKENS = [userToken] /\
        call = CallLob userToken message "Welcome" "iphone") \/
     (2 <= length USER_TOKENS /\ call = CallLobToAll USER_TOKENS message)).
Proof.
  unfold main. intros H.
  destruct (truthy PO_APP_TOKEN); simpl in H; [|left; congruence].
  destruct USER_TOKENS as [|u [|u' rest]]; simpl in H; [left; congruence| |].
  - right. split; [done|]. eexists. split; [reflexivity|]. left. exists u.
    split; [done|]. destruct isTTY; simpl in H; congruence.
  - right. split; [done|]. eexists. split; [reflexivity|]. right.
    split; [simpl; lia|]. destruct isTTY; simpl in H; congruence.
Qed.

(** X18.  When the command-line entry calls [lobToAll], the list holds at
    least two user tokens and is the list of arguments: the entry never
    starts a batch on the empty list, so once every submission has settled
    with a value that is neither [null] nor [undefined] and the handlers
    have run, the promise it prints from is resolved, with one slot for
    each argument. *)
Theorem main_batch_resolves (rocket : string) (isTTY : bool)
    (PO_APP_TOKEN : option string) (USER_TOKENS stdin hint userTokens : list string)
    (message : string) (evs : list batch_event) :
  main rocket isTTY PO_APP_TOKEN USER_TOKENS stdin = (hint, CallLobToAll userTokens message) ->
  userTokens = USER_TOKENS /\ 2 <= length userTokens /\
  ((forall k user, userTokens !! k = Some user ->
      exists o,
        submission_after user
          (postToApi (constructor PO_APP_TOKEN) user message None None)
          (arrivals_for k evs) = Settled o /\
        is_nullish (outcome_value o) = false) ->
   exists outcomes,
     aggregate (drain (batch_run (constructor PO_APP_TOKEN) userTokens message None evs))
       = Some outcomes /\
     length outcomes = length userTokens).
Proof.
  intros Hmain. apply main_calls in Hmain as [H | (_ & m & _ & [(u & _ & H) | (Hlen & H)])];
    try discriminate H.
  assert (Hus : userTokens = USER_TOKENS) by congruence.
  assert (Hm : message = m) by congruence.
  clear H. rewrite Hus, Hm. split; [done|]. split; [done|].
  intros Hall.
  destruct (batch_drained (constructor PO_APP_TOKEN) USER_TOKENS m None evs)
    as (Hres & Hl & _); [intros E; rewrite E in Hlen; simpl in Hlen; lia | done |].
  exists (results (drain (batch_run (constructor PO_APP_TOKEN) USER_TOKENS m None evs))).
  split; [|done]. unfold aggregate. by rewrite Hres.
Qed.

(** X19.  When the command-line entry calls [lob], its checks of the
    application token and of the message always pass; with a user token
    that is not empty, a message of at most 1024 characters and simulation
    off, the request goes to a URL with the five parameters [token], [user],
    [message], [title=Welcome] and [device=iphone], so the guard that reads
    the title finds one. *)
Theorem main_single_send (rocket : string) (isTTY : bool)
    (PO_APP_TOKEN : option string) (USER_TOKENS stdin hint : list string)
    (userToken message title device : string) :
  main rocket isTTY PO_APP_TOKEN USER_TOKENS stdin
    = (hint, CallLob userToken message title device) ->
  truthy (appToken (constructor PO_APP_TOKEN)) = true /\
  truthy (Some message) = true /\
  (truthy (Some userToken) = true ->
   String.length message <= 1024 ->
   truthy NO_POST = false ->
   lob (constructor PO_APP_TOKEN) (Some userToken) (Some message) (Some title) (Some device)
   = Posted (API_EP_MESSAGES +:+ "?" +:+
       URLSearchParams_toString
         [("token", default "undefined" PO_APP_TOKEN); ("user", userToken);
          ("message", message); ("title", "Welcome"); ("device", "iphone")])).
Proof.
  intros Hmain. apply main_calls in Hmain as [H | (Htok & m & Hm & [(u & _ & H) | (_ & H)])];
    try discriminate H.
  assert (Hcall : userToken = u /\ message = m /\ title = "Welcome" /\ device = "iphone")
    by (repeat split; congruence).
  destruct Hcall as (-> & -> & -> & ->). clear H.
  split; [done|]. split; [by rewrite Hm|].
  intros Hu Hlen Hsim. apply lob_posts; try done.
  by rewrite Hm.
Qed.

(** X20.  With the greeting's rocket counted as the two code units it is,
    the message that the command-line entry sends is longer than 1024
    characters exactly when text was piped in and that text is longer than
    1002 characters: this is the most the entry can deliver. *)
Theorem main_message_limit (rocket : string) (isTTY : bool)
    (PO_APP_TOKEN : option string) (USER_TOKENS stdin hint : list string)
    (call : cli_call) (message : string) :
  String.length rocket = 2 ->
  main rocket isTTY PO_APP_TOKEN USER_TOKENS stdin = (hint, call) ->
  (exists userToken title device, call = CallLob userToken message title device) \/
  (exists userTokens, call = CallLobToAll userTokens message) ->
  (1024 < String.length message <->
   isTTY = false /\ 1002 < String.length (String.concat "" stdin)).
Proof.
  intros Hrocket Hmain Hcall.
  apply main_calls in Hmain as [-> | (_ & m & Hm & Hcalls)].
  { destruct Hcall as [(u & t & d & H) | (us & H)]; discriminate H. }
  assert (Hmsg : message = m).
  { destruct Hcalls as [(u & _ & ->) | (_ & ->)];
      destruct Hcall as [(u' & t & d & H) | (us & H)]; congruence. }
  subst message. rewrite Hm, payloadString_length, Hrocket.
  destruct isTTY; simpl.
  - split; [lia | intros [H _]; discriminate H].
  - destruct (String.concat "" stdin) as [|c s]; simpl; split;
      first [ intros [_ H]; simpl in H; lia | intros H; split; [done | lia] ].
Qed.

End Runtime.

(** ** Closed examples *)

(** X23 at two recipients: the second is refused with status 500, the first
    is accepted afterwards. *)
Lemma lobToAll_outcomes_index_aligned_witness :
  exists outcomes,
    aggregate
      (drain
         (batch_run None JSON_parse_sample (constructor (Some "T0KEN"))
            ["u1"; "u2"] "hi" None
            [Arrive 1 (Response (responded 500 body_refused)); Microtask;
             Arrive 0 (Response (responded 200 body_accepted))])) = Some outcomes /\
    length outcomes = 2 /\
    outcomes !! 0 = Some (Some (VJson (JStr "abc-123"))) /\
    outcomes !! 1 =
      Some (Some (VErr (Error "HTTP 500: invalid token user inactive" (Some "u2")))).
Proof.
  destruct (lobToAll_outcomes_index_aligned None JSON_parse_sample
              (constructor (Some "T0KEN")) ["u1"; "u2"] "hi" None
              [Arrive 1 (Response (responded 500 body_refused)); Microtask;
               Arrive 0 (Response (responded 200 body_accepted))])
    as (outcomes & Hagg & Hlen & Hslots).
  - discriminate.
  - intros [|[|k]] user H; vm_compute in H; inversion H;
      eexists; split; vm_compute; reflexivity.
  - exists outcomes. split; [exact Hagg|]. split; [exact Hlen|]. split.
    + apply (Hslots 0 "u1" (Resolve (VJson (JStr "abc-123")))); vm_compute; reflexivity.
    + apply (Hslots 1 "u2"
               (Reject (VErr (Error "HTTP 500: invalid token user inactive" (Some "u2")))));
        vm_compute; reflexivity.
Defined.

(** X22 at two promises, the second settled before the call. *)
Lemma aggregate_resolves_once_after_all_witness :
  let st :=
    run (allPromisesSettled [Pending; Settled (Resolve (VJson (JStr "id-2")))])
        [RunJob; Settle 0 (Reject (VErr (Error "boom" None))); RunJob] in
  [Pending; Settled (Resolve (VJson (JStr "id-2")))] <> [] /\
  ok_calls st <= 1 /\
  (resolved st = true ->
     ok_calls st = 1 /\
     (forall k p, promiseList st !! k = Some p ->
        exists o, p = Settled o /\ results st !! k = Some (Some (outcome_value o))) /\
     (forall ev, step st ev = st) /\
     aggregate (ok st) = aggregate st /\
     (forall i v, results st !! i = Some (Some v) ->
        aggregate (fillAndCheck i v st) = aggregate st)) /\
  ((forall k p, promiseList st !! k = Some p ->
      exists o, p = Settled o /\ is_nullish (outcome_value o) = false) ->
   resolved (drain st) = true /\ ok_calls (drain st) = 1).
Proof.
  intros st. split; [discriminate|].
  apply (aggregate_resolves_once_after_all
           [Pending; Settled (Resolve (VJson (JStr "id-2")))]
           [RunJob; Settle 0 (Reject (VErr (Error "boom" None))); RunJob]).
  discriminate.
Defined.

(** C6, as amended, at a message of 1025 characters. *)
Lemma message_too_long_fails_before_io_witness :
  1024 < String.length (long_message 1025) /\
  lob None (constructor (Some "T0KEN")) (Some "u1") (Some (long_message 1025))
      (Some "Welcome") (Some "iphone") =
    Done (Reject (VErr (Error "Message is too long" (Some "u1")))) /\
  lobToAll_effects None (constructor (Some "T0KEN")) ["u1"; "u2"]
      (long_message 1025) None = [] /\
  aggregate (drain (lobToAll None (constructor (Some "T0KEN")) ["u1"; "u2"]
                             (long_message 1025) None)) =
    Some [Some (VErr (Error "Message is too long" (Some "u1")));
          Some (VErr (Error "Message is too long" (Some "u2")))].
Proof.
  assert (Hlong : 1024 < String.length (long_message 1025)) by (vm_compute; lia).
  split; [exact Hlong|].
  destruct (message_too_long_fails_before_io None (constructor (Some "T0KEN"))
              (long_message 1025) (Some "Welcome") (Some "iphone") Hlong)
    as (_ & _ & Hlob & _).
  destruct (message_too_long_fails_before_io None (constructor (Some "T0KEN"))
              (long_message 1025) None None Hlong)
    as (_ & _ & _ & Hall).
  destruct (Hall ["u1"; "u2"]) as (Heff & _ & Hagg).
  split; [apply Hlob; reflexivity|]. split; [exact Heff|].
  apply Hagg. discriminate.
Defined.

(** C7 at the response of the scenario. *)
Lemma non_200_reports_joined_errors_witness :
  postToApi_callback JSON_parse_sample "u1" (responded 500 body_refused) =
    CallReject (VErr (Error "HTTP 500: invalid token user inactive" (Some "u1"))).
Proof.
  destruct (non_200_reports_joined_errors JSON_parse_sample "u1" 500 body_refused
              [("errors", JArr [JStr "invalid token"; JStr "user inactive"])]
              ["invalid token"; "user inactive"])
    as (digits & failure & Hcb & _ & _ & _ & _ & _ & Hmsg).
  - discriminate.
  - reflexivity.
  - reflexivity.
  - rewrite <- (Hmsg eq_refl eq_refl). exact Hcb.
Defined.

(** C8, as amended, at the response of the round-trip scenario. *)
Lemma ok_200_resolves_with_request_field_witness :
  submission_after JSON_parse_sample "u1"
    (lob None (constructor (Some "T0KEN")) (Some "u1") (Some "hi") None None)
    [Response (responded 200 body_accepted)] =
  Settled (Resolve (VJson (JStr "abc-123"))).
Proof.
  destruct (proj1 (ok_200_resolves_with_request_field None JSON_parse_sample
                     (constructor (Some "T0KEN")) "u1" "hi" None None body_accepted)
              (JObj [("request", JStr "abc-123")]))
    as (v & Hget & _ & Hlob).
  - reflexivity.
  - discriminate.
  - simpl in Hget. injection Hget as <-.
    apply (Hlob "https://api.pushover.net/1/messages.json?token=T0KEN&user=u1&message=hi").
    reflexivity.
Defined.

(** C8 as stated fails: the body [null] parses as JSON, and the promise of
    [lob] is rejected as malformed instead of being resolved. *)
Lemma null_body_is_reported_malformed :
  JSON_parse_sample "null" = Some JNull /\
  lob None (constructor (Some "T0KEN")) (Some "u1") (Some "hi") None None =
    Posted "https://api.pushover.net/1/messages.json?token=T0KEN&user=u1&message=hi" /\
  submission_after JSON_parse_sample "u1"
    (lob None (constructor (Some "T0KEN")) (Some "u1") (Some "hi") None None)
    [Response (responded 200 "null")] =
    Settled (Reject (VErr (Error "Response from pushover.net is malformed? null" (Some "u1")))) /\
  ~ exists v,
      submission_after JSON_parse_sample "u1"
        (lob None (constructor (Some "T0KEN")) (Some "u1") (Some "hi") None None)
        [Response (responded 200 "null")] = Settled (Resolve v).
Proof.
  split; [reflexivity|]. split; [reflexivity|]. split; [reflexivity|].
  intros [v H]. vm_compute in H. discriminate H.
Qed.

(** C9 at the scenario of the empty user token. *)
Lemma lob_validates_before_io_witness :
  lob None (constructor (Some "T0KEN")) (Some "") (Some "hi") None None =
    Done (Reject (VErr (Error "No user token provided!" None))) /\
  launch_effects (lob None (constructor (Some "T0KEN")) (Some "") (Some "hi") None None)
    = [].
Proof.
  apply (proj1 (proj2 (lob_validates_before_io None (constructor (Some "T0KEN"))
                         (Some "") (Some "hi") None None))); reflexivity.
Defined.

(** C10, as amended, at two promises, the first settled with [undefined]. *)
Lemma nullish_outcome_never_resolves_witness :
  aggregate
    (drain
       (run (run (allPromisesSettled [Settled (Resolve VUndefined); Pending]) [])
            [RunJob; Settle 1 (Resolve (VJson (JStr "id-2"))); RunJob])) = None.
Proof.
  apply (proj1 (nullish_outcome_never_resolves None JSON_parse_sample
                  [Settled (Resolve VUndefined); Pending] []
                  [RunJob; Settle 1 (Resolve (VJson (JStr "id-2"))); RunJob]
                  0 (Resolve VUndefined)
                  (constructor None) "" "" None None [] (Resolve VUndefined)));
    reflexivity.
Defined.

(** The remark of C10 on the Dispatcher fails as stated: a 200 response with
    the body [{}] fulfils the submission with [undefined], a value that is
    neither a string nor an [Error], and the promise of [lobToAll] is pending
    although both submissions have settled and no handler is left to run; it
    stays pending whatever follows. *)
Lemma dispatcher_outcome_can_be_undefined :
  let evs :=
    [Arrive 0 (Response (responded 200 "{}")); Microtask;
     Arrive 1 (Response (responded 200 body_accepted)); Microtask] in
  let st :=
    batch_run None JSON_parse_sample (constructor (Some "T0KEN")) ["u1"; "u2"] "hi" None
      evs in
  JSON_parse_sample "{}" = Some (JObj []) /\
  promiseList st =
    [Settled (Resolve VUndefined); Settled (Resolve (VJson (JStr "abc-123")))] /\
  jobs st = [] /\
  aggregate st = None /\
  forall evs',
    aggregate (drain (batch_run None JSON_parse_sample (constructor (Some "T0KEN"))
                        ["u1"; "u2"] "hi" None (evs ++ evs'))) = None.
Proof.
  intros evs st. repeat (split; [reflexivity|]).
  intros evs'.
  apply (batch_nullish_blocks None JSON_parse_sample (constructor (Some "T0KEN"))
           ["u1"; "u2"] "hi" None evs evs' 0 "u1" (Resolve VUndefined));
    reflexivity.
Qed.

(** C1 (the code does not do this).  Two batches in which one recipient
    keeps the promise of [lobToAll] from ever reporting the others.  In the
    first, the 200 response of the second recipient carries no [request]:
    the submission is fulfilled with [undefined], its slot counts as
    unfilled, and with every submission settled and every handler run the
    promise is pending and stays pending whatever follows.  In the second,
    the transport reports a connection error for the second recipient: the
    callback dies before it rejects, the submission stays pending, and the
    success of the first recipient is never reported. *)
Lemma lobToAll_can_stay_pending :
  let evs :=
    [Arrive 0 (Response (responded 200 body_accepted)); Microtask;
     Arrive 1 (Response (responded 200 "{}")); Microtask;
     Arrive 2 (Response (responded 500 body_refused)); Microtask] in
  let st :=
    batch_run None JSON_parse_sample (constructor (Some "T0KEN"))
      ["u1"; "u2"; "u3"] "hi" None evs in
  let refused :=
    {| err := Some (Error "connect ECONNREFUSED" None); res := None; data := None |} in
  let evs2 :=
    [Arrive 0 (Response (responded 200 body_accepted)); Microtask;
     Arrive 1 (Response refused); Microtask] in
  let st2 :=
    batch_run None JSON_parse_sample (constructor (Some "T0KEN"))
      ["u1"; "u2"] "hi" None evs2 in
  (promiseList st =
     [Settled (Resolve (VJson (JStr "abc-123")));
      Settled (Resolve VUndefined);
      Settled (Reject (VErr (Error "HTTP 500: invalid token user inactive" (Some "u3"))))] /\
   jobs st = [] /\
   aggregate st = None /\
   forall evs',
     aggregate (drain (batch_run None JSON_parse_sample (constructor (Some "T0KEN"))
                         ["u1"; "u2"; "u3"] "hi" None (evs ++ evs'))) = None) /\
  (postToApi_callback JSON_parse_sample "u2" refused = Uncaught (VNative TypeError) /\
   promiseList st2 = [Settled (Resolve (VJson (JStr "abc-123"))); Pending] /\
   jobs st2 = [] /\
   results st2 = [Some (VJson (JStr "abc-123")); None] /\
   aggregate st2 = None /\
   aggregate (drain st2) = None).
Proof.
  intros evs st refused evs2 st2. split.
  - split; [reflexivity|]. split; [reflexivity|]. split; [reflexivity|].
    intros evs'.
    apply (batch_nullish_blocks None JSON_parse_sample (constructor (Some "T0KEN"))
             ["u1"; "u2"; "u3"] "hi" None evs evs' 1 "u2" (Resolve VUndefined));
      reflexivity.
  - repeat split; reflexivity.
Qed.

(** C3 (the code does not do this).  Both operations have settled, the
    second with [null], and every handler has run, yet the returned promise
    is not resolved: the scan takes the slot that holds [null] for one that
    was never written, [ok] is not called, and nothing that follows
    resolves the promise. *)
Lemma aggregate_can_stay_pending :
  let evs :=
    [Settle 0 (Resolve (VJson (JStr "id-1"))); RunJob;
     Settle 1 (Resolve (VJson JNull)); RunJob] in
  let st := run (allPromisesSettled [Pending; Pending]) evs in
  promiseList st =
    [Settled (Resolve (VJson (JStr "id-1"))); Settled (Resolve (VJson JNull))] /\
  jobs st = [] /\
  results st = [Some (VJson (JStr "id-1")); Some (VJson JNull)] /\
  aggregate st = None /\
  ok_calls st = 0 /\
  forall evs', aggregate (drain (run st evs')) = None.
Proof.
  intros evs st. repeat (split; [reflexivity|]).
  intros evs'.
  apply (run_nullish_blocks [Pending; Pending] evs evs' 1 (Resolve (VJson JNull)));
    reflexivity.
Qed.

(** ** Further properties and their closed examples *)

(** X21.  Simulation changes what [postToApi] does with the URL and nothing
    else: where the call would send a request with simulation off, it logs
    the same URL and arms the timer with simulation on, and where it would
    reject at once it rejects with the same value. *)
Theorem simulation_logs_the_url_it_would_post (simulate live : option string)
    (this : Bloblob) (tgt message : string) (title device : option string) :
  truthy simulate = true ->
  truthy live = false ->
  match postToApi live this tgt message title device with
  | Posted url =>
      postToApi simulate this tgt message title device = Simulated url /\
      launch_effects (postToApi simulate this tgt message title device) =
        [ConsoleLog ("[.] Was going to POST to -> " +:+ url); SetTimeout]
  | Done o => postToApi simulate this tgt message title device = Done o
  | Simulated _ => False
  end.
Proof.
  intros Hsim Hlive. unfold postToApi, NO_POST.
  destruct (Nat.ltb 1024 (String.length message)); [done|].
  destruct (generateUrl this tgt message title device) as [url|e]; [|done].
  by rewrite Hsim, Hlive.
Qed.

Lemma simulation_logs_the_url_it_would_post_witness :
  postToApi None (constructor (Some "T0KEN")) "u1" "hi" None None =
    Posted "https://api.pushover.net/1/messages.json?token=T0KEN&user=u1&message=hi" /\
  postToApi (Some "1") (constructor (Some "T0KEN")) "u1" "hi" None None =
    Simulated "https://api.pushover.net/1/messages.json?token=T0KEN&user=u1&message=hi".
Proof.
  split; [reflexivity|].
  pose proof (simulation_logs_the_url_it_would_post (Some "1") None
                (constructor (Some "T0KEN")) "u1" "hi" None None eq_refl eq_refl) as H.
  change (postToApi None (constructor (Some "T0KEN")) "u1" "hi" None None)
    with (Posted "https://api.pushover.net/1/messages.json?token=T0KEN&user=u1&message=hi")
    in H.
  exact (proj1 H).
Defined.

(** X1 at a user token that spells a parameter and a message with reserved
    characters. *)
Lemma generateUrl_parameter_count_witness :
  exists url,
    generateUrl (constructor (Some "T0KEN")) "u1&device=x" "a=b c#d?" (Some "Hi")
                (Some "iphone") = Normal url /\
    count_char "?" url = 1 /\ count_char "=" url = 5 /\ count_char "&" url = 4 /\
    count_char "#" url = 0 /\ count_char " " url = 0.
Proof.
  eexists. split; [reflexivity|].
  apply (generateUrl_parameter_count (constructor (Some "T0KEN")) "u1&device=x"
           "a=b c#d?" (Some "Hi") (Some "iphone")).
  reflexivity.
Defined.

Lemma generateUrl_keeps_safe_text_witness :
  generateUrl (constructor (Some "T0KEN")) "u1" "hello" (Some "Welcome") None =
  Normal ("https://api.pushover.net/1/messages.json"
            +:+ "?token=T0KEN&user=u1&message=hello&title=Welcome").
Proof.
  apply (generateUrl_keeps_safe_text "T0KEN" "u1" "hello" (Some "Welcome")); reflexivity.
Defined.

Lemma simulation_never_posts_witness :
  ~ In (HttpPost "https://api.pushover.net/1/messages.json?token=T0KEN&user=u1&message=hi")
       (lobToAll_effects (Some "1") (constructor (Some "T0KEN")) ["u1"; "u2"] "hi" None).
Proof.
  apply (simulation_never_posts (Some "1") (constructor (Some "T0KEN")) ["u1"; "u2"]
           "u1" "hi" (Some "u1") (Some "hi") None None
           "https://api.pushover.net/1/messages.json?token=T0KEN&user=u1&message=hi").
  reflexivity.
Defined.

Lemma simulated_batch_resolves_with_ids_witness :
  aggregate
    (drain (batch_run (Some "1") JSON_parse_sample (constructor (Some "T0KEN"))
              ["u1"; "u2"] "hi" None
              [Arrive 1 TimerFired; Arrive 0 (Response (responded 200 "{}"));
               Arrive 0 TimerFired])) =
  Some [Some (VJson (JStr SIMULATED_ID)); Some (VJson (JStr SIMULATED_ID))].
Proof.
  apply (simulated_batch_resolves_with_ids (Some "1") JSON_parse_sample
           (constructor (Some "T0KEN")) ["u1"; "u2"] "hi" None
           [Arrive 1 TimerFired; Arrive 0 (Response (responded 200 "{}"));
            Arrive 0 TimerFired]).
  - reflexivity.
  - simpl. lia.
  - discriminate.
  - intros [|[|k]] Hk; simpl in *; [right; left; reflexivity | left; reflexivity | lia].
Defined.

Lemma lobToAll_posts_once_per_recipient_witness :
  lobToAll_effects None (constructor (Some "T0KEN")) ["u1"; "u2"] "hi" None =
    [HttpPost "https://api.pushover.net/1/messages.json?token=T0KEN&user=u1&message=hi";
     HttpPost "https://api.pushover.net/1/messages.json?token=T0KEN&user=u2&message=hi"].
Proof.
  apply (proj1 (lobToAll_posts_once_per_recipient None (constructor (Some "T0KEN"))
                  ["u1"; "u2"] "hi" None eq_refl ltac:(simpl; lia))).
Defined.

Lemma rejections_carry_the_recipient_witness :
  (exists msg,
     VErr (Error "HTTP 500: invalid token user inactive" (Some "u1"))
       = VErr (Error msg (Some "u1"))) \/
  (exists r e,
     In (Response r) [Response (responded 500 body_refused)] /\ err r = Some e /\
     VErr (Error "HTTP 500: invalid token user inactive" (Some "u1")) = VErr e) \/
  (VErr (Error "HTTP 500: invalid token user inactive" (Some "u1")) = VNative TypeError /\
   @None string = None /\ @None string <> None).
Proof.
  apply (rejections_carry_the_recipient None JSON_parse_sample (constructor (Some "T0KEN"))
           "u1" "hi" None None [Response (responded 500 body_refused)]
           (VErr (Error "HTTP 500: invalid token user inactive" (Some "u1")))).
  reflexivity.
Defined.

Lemma fulfilment_is_id_or_request_witness :
  (truthy (NO_POST None) = true /\
   In TimerFired [Response (responded 200 body_accepted)] /\
   VJson (JStr "abc-123") = VJson (JStr SIMULATED_ID)) \/
  (truthy (NO_POST None) = false /\
   exists r strData json,
     In (Response r) [Response (responded 200 body_accepted)] /\
     err r = None /\ res r = Some {| statusCode := 200 |} /\ data r = Some strData /\
     JSON_parse_sample strData = Some json /\
     get_property json "request" = Normal (VJson (JStr "abc-123"))).
Proof.
  apply (fulfilment_is_id_or_request None JSON_parse_sample (constructor (Some "T0KEN"))
           "u1" "hi" None None [Response (responded 200 body_accepted)]
           (VJson (JStr "abc-123"))).
  reflexivity.
Defined.

(** X8 at a gateway's HTML answer. *)
Lemma non_200_without_errors_never_settles_witness :
  (exists e,
     postToApi_callback JSON_parse_sample "u1" (responded 502 "<html>Bad Gateway</html>")
       = Uncaught (VNative e)) /\
  submission_after JSON_parse_sample "u1"
    (Posted "https://api.pushover.net/1/messages.json?token=T0KEN&user=u1&message=hi")
    [Response (responded 502 "<html>Bad Gateway</html>")] = Pending.
Proof.
  apply (non_200_without_errors_never_settles JSON_parse_sample "u1"
           "https://api.pushover.net/1/messages.json?token=T0KEN&user=u1&message=hi"
           502 "<html>Bad Gateway</html>").
  - discriminate.
  - left. reflexivity.
Defined.

(** X9 at two recipients, only the first answered. *)
Lemma pending_recipient_blocks_batch_witness :
  aggregate
    (drain (batch_run None JSON_parse_sample (constructor (Some "T0KEN"))
              ["u1"; "u2"] "hi" None
              [Arrive 0 (Response (responded 200 body_accepted)); Microtask])) = None.
Proof.
  apply (proj2 (pending_recipient_blocks_batch None JSON_parse_sample
                  (constructor (Some "T0KEN")) ["u1"; "u2"] "hi" None
                  [Arrive 0 (Response (responded 200 body_accepted)); Microtask]
                  1 "u2" eq_refl eq_refl)).
Defined.

Lemma lob_device_without_title_witness :
  lob None (constructor (Some "T0KEN")) (Some "u1") (Some "hi") None (Some "iphone") =
    Done (Reject (VNative TypeError)).
Proof.
  apply (proj1 (lob_device_without_title None (constructor (Some "T0KEN")) "u1" "hi"
                  "iphone" eq_refl eq_refl eq_refl ltac:(simpl; lia))).
Defined.

Lemma slot_written_once_witness :
  results
    (run (run (allPromisesSettled [Pending; Pending])
              [Settle 0 (Resolve (VJson (JStr "id-1"))); RunJob])
         [Settle 0 (Reject (VErr (Error "late" None))); RunJob;
          Settle 1 (Resolve (VJson (JStr "id-2"))); RunJob]) !! 0
  = Some (Some (VJson (JStr "id-1"))).
Proof.
  apply (proj1 (slot_written_once [Pending; Pending]
                  [Settle 0 (Resolve (VJson (JStr "id-1"))); RunJob]
                  [Settle 0 (Reject (VErr (Error "late" None))); RunJob;
                   Settle 1 (Resolve (VJson (JStr "id-2"))); RunJob]
                  0 (VJson (JStr "id-1")) eq_refl)).
Defined.

Lemma results_length_fixed_witness :
  length
    (results (run (allPromisesSettled [Pending; Settled (Resolve (VJson (JStr "id-2")))])
                  [RunJob; Settle 0 (Reject (VErr (Error "boom" None))); RunJob])) = 2.
Proof.
  apply (proj1 (results_length_fixed [Pending; Settled (Resolve (VJson (JStr "id-2")))]
                  [RunJob; Settle 0 (Reject (VErr (Error "boom" None))); RunJob])).
Defined.

(** X14 at two promises settled in the two possible orders. *)
Lemma aggregate_independent_of_arrival_order_witness :
  aggregate
    (drain (run (allPromisesSettled [Pending; Pending])
                [Settle 0 (Resolve (VJson (JStr "id-1")));
                 Settle 1 (Reject (VErr (Error "boom" None)))])) =
  aggregate
    (drain (run (allPromisesSettled [Pending; Pending])
                [Settle 1 (Reject (VErr (Error "boom" None))); RunJob;
                 Settle 0 (Resolve (VJson (JStr "id-1")))])).
Proof.
  apply (aggregate_independent_of_arrival_order [Pending; Pending]
           [Settle 0 (Resolve (VJson (JStr "id-1")));
            Settle 1 (Reject (VErr (Error "boom" None)))]
           [Settle 1 (Reject (VErr (Error "boom" None))); RunJob;
            Settle 0 (Resolve (VJson (JStr "id-1")))]).
  - discriminate.
  - reflexivity.
  - intros [|[|k]] p H; vm_compute in H; inversion H; eexists; split; reflexivity.
Defined.

Lemma generatePostURL_agrees_with_generateUrl_witness :
  generateUrl (constructor (Some "T0KEN")) "u1" "hi" (Some "Welcome") None =
    Normal (generatePostURL (constructor (Some "T0KEN")) "u1" "hi" (Some "Welcome")) /\
  exists url,
    generateUrl (constructor (Some "T0KEN")) "u1" "hi" (Some "") None = Normal url /\
    generatePostURL (constructor (Some "T0KEN")) "u1" "hi" (Some "") = url +:+ "&title=".
Proof.
  split.
  - apply (proj1 (generatePostURL_agrees_with_generateUrl (constructor (Some "T0KEN"))
                    "u1" "hi" (Some "Welcome"))).
    discriminate.
  - apply (proj2 (generatePostURL_agrees_with_generateUrl (constructor (Some "T0KEN"))
                    "u1" "hi" (Some ""))).
    reflexivity.
Defined.

Lemma demo_lob_resolves_with_fixed_id_witness :
  demo_submission_after JSON_parse_sample
    (demo_lob (constructor (Some "T0KEN")) (Some "u1") (Some "hi") None)
    [Response (responded 200 body_accepted); TimerFired] =
  Settled (Resolve (VJson (JStr "01234567-3218-41af-83d8-fedcba987654"))).
Proof.
  destruct (proj1 (demo_lob_resolves_with_fixed_id JSON_parse_sample
                     (constructor (Some "T0KEN")) "u1" "hi" None
                     [Response (responded 200 body_accepted); TimerFired])
              eq_refl eq_refl eq_refl ltac:(simpl; lia))
    as (_ & _ & Hfired & _).
  apply Hfired. right. left. reflexivity.
Defined.

Lemma demo_matches_simulated_library_witness :
  In (ConsoleLog ("[.] Was going to POST to -> "
                    +:+ "https://api.pushover.net/1/messages.json"
                    +:+ "?token=T0KEN&user=u1&message=hi&title=Welcome"))
     (launch_effects
        (postToApi (Some "1") (constructor (Some "T0KEN")) "u1" "hi" (Some "Welcome") None)) /\
  In (ConsoleLog ("[.] Was going to POST to -> "
                    +:+ "https://api.pushover.net/1/messages.json"
                    +:+ "?token=T0KEN&user=u1&message=hi&title=Welcome"))
     (launch_effects
        (demo_postToApi (constructor (Some "T0KEN")) "u1" "hi" (Some "Welcome"))).
Proof.
  destruct (proj1 (demo_matches_simulated_library (Some "1") JSON_parse_sample
                     (constructor (Some "T0KEN")) "u1" "hi" (Some "Welcome")
                     eq_refl ltac:(discriminate)) ltac:(simpl; lia))
    as (Hlib & Hdemo & _).
  split; [exact Hlib | exact Hdemo].
Defined.

(** X18 at two arguments, both accepted. *)
Lemma main_batch_resolves_witness :
  exists outcomes,
    aggregate
      (drain (batch_run None JSON_parse_sample (constructor (Some "T0KEN")) ["u1"; "u2"]
                (payloadString "??" "hello") None
                [Arrive 1 (Response (responded 200 body_accepted));
                 Arrive 0 (Response (responded 200 body_accepted))])) = Some outcomes /\
    length outcomes = 2.
Proof.
  destruct (main_batch_resolves None JSON_parse_sample "??" false (Some "T0KEN")
              ["u1"; "u2"] ["hel"; "lo"] [] ["u1"; "u2"] (payloadString "??" "hello")
              [Arrive 1 (Response (responded 200 body_accepted));
               Arrive 0 (Response (responded 200 body_accepted))] eq_refl)
    as (_ & _ & Hres).
  apply Hres.
  intros [|[|k]] user H; vm_compute in H; inversion H; eexists; split; vm_compute; reflexivity.
Defined.

Lemma main_single_send_witness :
  lob None (constructor (Some "T0KEN")) (Some "u1") (Some (payloadString "??" "hello"))
      (Some "Welcome") (Some "iphone") =
  Posted (API_EP_MESSAGES +:+ "?" +:+
    URLSearchParams_toString
      [("token", "T0KEN"); ("user", "u1"); ("message", payloadString "??" "hello");
       ("title", "Welcome"); ("device", "iphone")]).
Proof.
  destruct (main_single_send None "??" false (Some "T0KEN") ["u1"] ["hello"] [] "u1"
              (payloadString "??" "hello") "Welcome" "iphone" eq_refl)
    as (_ & _ & Hsend).
  apply Hsend; [reflexivity | vm_compute; lia | reflexivity].
Defined.

(** X20 at a piped text of 1003 characters. *)
Lemma main_message_limit_witness :
  1024 < String.length (payloadString "??" (long_message 1003)).
Proof.
  apply (main_message_limit "??" false (Some "T0KEN") ["u1"] [long_message 1003] []
           (CallLob "u1" (payloadString "??" (long_message 1003)) "Welcome" "iphone")
           (payloadString "??" (long_message 1003))).
  - reflexivity.
  - reflexivity.
  - left. eauto.
  - split; [reflexivity | vm_compute; lia].
Defined.

(** C6 as stated fails: a message of 1025 characters given to a [lob] whose
    Dispatcher has no application token is refused by the first check, with
    an error that is neither the one for the length nor tagged with the
    recipient. *)
Lemma long_message_without_credential :
  1024 < String.length (long_message 1025) /\
  lob None (constructor None) (Some "u1") (Some (long_message 1025)) None None =
    Done (Reject (VErr (Error "No application token!" None))) /\
  lob None (constructor None) (Some "u1") (Some (long_message 1025)) None None <>
    Done (Reject (VErr (Error "Message is too long" (Some "u1")))).
Proof.
  split; [vm_compute; lia|]. split; [reflexivity|]. discriminate.
Qed.
